(** * The tRPC procedure pipeline of [src/addons/server/reliverse/trpc.ts]

    The file builds four procedure variants ([publicAction],
    [protectedAction], [protectedBoardAction], [cachedDataLayer]) by
    stacking middleware steps on a tRPC procedure builder.  The steps are
    embedded as functions in a state-and-exception monad over an explicit
    [World]; the collaborators the file imports (session resolution, the
    boards table, React's [cache], Next's [unstable_cache], the clock, the
    random source, timers, the console) are the fields of that world. *)

From Stdlib Require Import ZArith List Bool Lia.
From Stdlib Require Import Floats.SpecFloat.
From stdpp Require Import base option list strings gmap.

Local Open Scope string_scope.
Local Open Scope Z_scope.

(** ** Data *)

(** The session object returned by [authjs()]; only [id] is read here. *)
Module User.
Record t := mk { id : string; email : string }.
End User.

(** A row of the [boards] table. *)
Module Board.
Record t := mk { id : string; ownerId : string; name : string }.
End Board.

(** JSON values: procedure inputs and handler payloads. *)
#[warnings="-register-all"]
Inductive Json :=
| JNull
| JNumber (z : Z)
| JString (s : string)
| JObject (fields : list (string * Json)).

Fixpoint assoc {A} (k : string) (l : list (string * A)) : option A :=
  match l with
  | [] => None
  | (k', v) :: l' => if String.eqb k k' then Some v else assoc k l'
  end.

(** The error codes of [TRPCError]. *)
Inductive TRPC_ERROR_CODE :=
| BAD_REQUEST
| UNAUTHORIZED
| FORBIDDEN
| NOT_FOUND
| CONFLICT
| INTERNAL_SERVER_ERROR.

Definition code_name (c : TRPC_ERROR_CODE) : string :=
  match c with
  | BAD_REQUEST => "BAD_REQUEST"
  | UNAUTHORIZED => "UNAUTHORIZED"
  | FORBIDDEN => "FORBIDDEN"
  | NOT_FOUND => "NOT_FOUND"
  | CONFLICT => "CONFLICT"
  | INTERNAL_SERVER_ERROR => "INTERNAL_SERVER_ERROR"
  end.

Record TRPCError := mkTRPCError {
  code : TRPC_ERROR_CODE;
  message : string;
  cause : option string
}.

(** [new TRPCError({ code })]: without a message or a cause the message is
    the name of the code. *)
Definition newTRPCError (c : TRPC_ERROR_CODE) : TRPCError :=
  {| code := c; message := code_name c; cause := None |}.

(** What a JavaScript [throw] can carry in this file: a [TRPCError], or
    another [Error] (a [TypeError] on reading a field of [null]). *)
Inductive Thrown :=
| ThrowTRPC (e : TRPCError)
| ThrowError (msg : string).

(** tRPC's [getTRPCErrorFromUnknown]: a [TRPCError] is kept, anything else
    is wrapped as an internal error that remembers its cause. *)
Definition getTRPCErrorFromUnknown (t : Thrown) : TRPCError :=
  match t with
  | ThrowTRPC e => e
  | ThrowError msg =>
      {| code := INTERNAL_SERVER_ERROR; message := msg; cause := Some msg |}
  end.

(** The logger handle: [console]. *)
Inductive Console := console.

(** Field values of the execution context. *)
Inductive CtxValue :=
| VNull
| VLog (l : Console)
| VUser (u : User.t)
| VBoard (b : Board.t).

(** The execution context is a JavaScript object used as a bag of fields. *)
Abbreviation Ctx := (gmap string CtxValue).

(** The result a middleware returns: [{ ok: true, data, ctx }], where
    [ctx] is the context the resolver ran in, or [{ ok: false, error }]. *)
Inductive MiddlewareResult :=
| MOk (data : Json) (ctx : Ctx)
| MErr (error : TRPCError).

Definition ok (res : MiddlewareResult) : bool :=
  match res with MOk _ _ => true | MErr _ => false end.

(** [{ ...a, ...b }]: the fields of [b] win. *)
Definition spread (a b : Ctx) : Ctx := b ∪ a.

(** A value of type [Session | null] as a context field. *)
Definition sessionValue (s : option User.t) : CtxValue :=
  match s with
  | Some u => VUser u
  | None => VNull
  end.

(** What [createContext] returns: [{ log, user: session }]. *)
Record Context := mkContext { log : Console; user : option User.t }.

Definition contextFields (c : Context) : Ctx :=
  {[ "log" := VLog (log c); "user" := sessionValue (user c) ]}.

(** A record written to the console by [log.info] or [log.error]. *)
Inductive LogRecord :=
| LogInfo (duration : Z) (res : Json)
| LogError (duration : Z) (error : TRPCError).

(** An entry of Next's data cache: the stored result and its tags. *)
Record CacheEntry := mkCacheEntry {
  value : MiddlewareResult;
  tags : list string
}.

(** ** The world

    [sessions k] is the answer of the [k]-th call of [authjs()] and
    [randoms k] the [k]-th draw of [Math.random()]: both collaborators
    take no argument, so a run sees them as a sequence of answers.
    [contextMemo] is the per-request memo table of React's [cache] for
    [createContext]; React keeps such a table only while it renders
    Server Components, and [rendering] tells whether the code runs inside
    such a render.  [dataCache] outlives requests.  [resolverRuns] counts
    the resolvers that have been started; it is kept by the model of the
    procedure builder and serves to state how often a handler ran. *)
Record World := mkWorld {
  sessions : nat → option User.t;
  authCalls : nat;
  clock : Z;
  randoms : nat → spec_float;
  randomCalls : nat;
  timers : list Z;
  boards : list Board.t;
  dataCache : gmap string CacheEntry;
  contextMemo : option Context;
  logged : list LogRecord;
  resolverRuns : nat;
  rendering : bool
}.

Definition set_authCalls (n : nat) (w : World) : World :=
  mkWorld (sessions w) n (clock w) (randoms w) (randomCalls w) (timers w)
          (boards w) (dataCache w) (contextMemo w) (logged w) (resolverRuns w)
          (rendering w).
Definition set_clock (t : Z) (w : World) : World :=
  mkWorld (sessions w) (authCalls w) t (randoms w) (randomCalls w) (timers w)
          (boards w) (dataCache w) (contextMemo w) (logged w) (resolverRuns w)
          (rendering w).
Definition set_randomCalls (n : nat) (w : World) : World :=
  mkWorld (sessions w) (authCalls w) (clock w) (randoms w) n (timers w)
          (boards w) (dataCache w) (contextMemo w) (logged w) (resolverRuns w)
          (rendering w).
Definition set_timers (l : list Z) (w : World) : World :=
  mkWorld (sessions w) (authCalls w) (clock w) (randoms w) (randomCalls w) l
          (boards w) (dataCache w) (contextMemo w) (logged w) (resolverRuns w)
          (rendering w).
Definition set_dataCache (c : gmap string CacheEntry) (w : World) : World :=
  mkWorld (sessions w) (authCalls w) (clock w) (randoms w) (randomCalls w)
          (timers w) (boards w) c (contextMemo w) (logged w) (resolverRuns w)
          (rendering w).
Definition set_contextMemo (m : option Context) (w : World) : World :=
  mkWorld (sessions w) (authCalls w) (clock w) (randoms w) (randomCalls w)
          (timers w) (boards w) (dataCache w) m (logged w) (resolverRuns w)
          (rendering w).
Definition set_logged (l : list LogRecord) (w : World) : World :=
  mkWorld (sessions w) (authCalls w) (clock w) (randoms w) (randomCalls w)
          (timers w) (boards w) (dataCache w) (contextMemo w) l (resolverRuns w)
          (rendering w).
Definition set_resolverRuns (n : nat) (w : World) : World :=
  mkWorld (sessions w) (authCalls w) (clock w) (randoms w) (randomCalls w)
          (timers w) (boards w) (dataCache w) (contextMemo w) (logged w) n
          (rendering w).
Definition set_rendering (b : bool) (w : World) : World :=
  mkWorld (sessions w) (authCalls w) (clock w) (randoms w) (randomCalls w)
          (timers w) (boards w) (dataCache w) (contextMemo w) (logged w)
          (resolverRuns w) b.

(** A request starts with an empty memo table. *)
Definition beginRequest (w : World) : World := set_contextMemo None w.

(** ** Asynchronous computations

    An [async] function either returns a value or rejects with what was
    thrown; either way it leaves a world behind. *)
Definition Async (A : Type) : Type := World → (A + Thrown) * World.

Definition ret {A} (a : A) : Async A := fun w => (inl a, w).

Definition throw {A} (t : Thrown) : Async A := fun w => (inr t, w).

Definition bind {A B} (m : Async A) (k : A → Async B) : Async B :=
  fun w =>
    match m w with
    | (inl a, w') => k a w'
    | (inr t, w') => (inr t, w')
    end.

Notation "x <- m ;; k" := (bind m (fun x => k))
  (at level 100, m at next level, right associativity).
Notation "m ;;; k" := (bind m (fun _ => k))
  (at level 100, k at level 200, right associativity).

(** ** The collaborators *)

(** Modelled from the spec: the session-resolution collaborator, [authjs]
    of [~/auth/authjs], which is not among the sources.  A call resolves
    to a session or to none ([null]); which one is the next answer of the
    world, so that the statements below hold for every behaviour of the
    collaborator. *)
Definition authjs : Async (option User.t) :=
  fun w => (inl (sessions w (authCalls w)), set_authCalls (S (authCalls w)) w).

(** [Date.now()] *)
Definition Date_now : Async Z := fun w => (inl (clock w), w).

(** [Math.random()] *)
Definition Math_random : Async spec_float :=
  fun w => (inl (randoms w (randomCalls w)), set_randomCalls (S (randomCalls w)) w).

(** [await new Promise((resolve) => setTimeout(resolve, ms))]: the timer is
    recorded, and the clock has moved on by [ms] when the promise resolves
    (the model lets the timer fire on time). *)
Definition setTimeout_await (ms : Z) : Async unit :=
  fun w => (inl tt, set_clock (clock w + ms) (set_timers (timers w ++ [ms]) w)).

(** [log.info(...)] and [log.error(...)] on the console. *)
Definition log_info (l : Console) (duration : Z) (res : Json) : Async unit :=
  fun w => (inl tt, set_logged (logged w ++ [LogInfo duration res]) w).

Definition log_error (l : Console) (duration : Z) (error : TRPCError) : Async unit :=
  fun w => (inl tt, set_logged (logged w ++ [LogError duration error]) w).

(** Modelled from the spec: the database query collaborator (resource
    lookup by filter predicate), [db.query.boards.findFirst({ where })] of
    [~/db], which is not among the sources.  It resolves to the first row
    of the table that satisfies the filter, to [undefined] when there is
    none. *)
Definition findFirst (where_ : Board.t → bool) : Async (option Board.t) :=
  fun w => (inl (List.find where_ (boards w)), w).

(** JavaScript numbers are binary64 floats. *)
Definition prec : Z := 53.
Definition emax : Z := 1024.

(** The literal [400] as a binary64 float: 400 = 7036874417766400 * 2^-44. *)
Definition float_400 : spec_float := S754_finite false 7036874417766400 (-44).

(** [Math.floor] of a finite float, as an integer. *)
Definition Math_floor (x : spec_float) : Z :=
  match x with
  | S754_finite s m e => Z.shiftl (cond_Zopp s (Zpos m)) e
  | _ => 0
  end.

(** ** The tRPC procedure builder *)

(** The options a middleware receives (the fields this file reads). *)
Record CallOpts := mkCallOpts {
  ctx : Ctx;
  input : Json;
  rawInput : Json
}.

(** The argument of [options.next(...)]; [options.next()] passes neither
    field. *)
Record NextOpts := mkNextOpts {
  next_ctx : option Ctx;
  next_input : option Json
}.

Definition no_opts : NextOpts := mkNextOpts None None.
Definition with_ctx (c : Ctx) : NextOpts := mkNextOpts (Some c) None.

(** [options.next]: it never rejects, since [callRecursive] catches what
    the rest of the chain throws. *)
Definition Next : Type := NextOpts → World → MiddlewareResult * World.

Definition Middleware : Type := CallOpts → Next → Async MiddlewareResult.

Definition await_next (next : Next) (o : NextOpts) : Async MiddlewareResult :=
  fun w => let (res, w') := next o w in (inl res, w').

(** What the rest of the chain is called with:
    [ctx: nextOpts?.ctx ? { ...opts.ctx, ...nextOpts.ctx } : opts.ctx] and
    the input replaced when one is passed. *)
Definition nextCallOpts (opts : CallOpts) (o : NextOpts) : CallOpts :=
  {| ctx := match next_ctx o with
            | Some c => spread (ctx opts) c
            | None => ctx opts
            end;
     input := match next_input o with
              | Some i => i
              | None => input opts
              end;
     rawInput := rawInput opts |}.

(** tRPC's [callRecursive]: run the first middleware with the rest of the
    chain as its [next]; whatever it throws becomes a failed result. *)
Fixpoint callRecursive (middlewares : list Middleware) (opts : CallOpts)
    (w : World) : MiddlewareResult * World :=
  match middlewares with
  | [] =>
      (MErr (getTRPCErrorFromUnknown (ThrowError "middleware is not a function")), w)
  | middleware :: rest =>
      match middleware opts (fun o => callRecursive rest (nextCallOpts opts o)) w with
      | (inl result, w') => (result, w')
      | (inr cause, w') => (MErr (getTRPCErrorFromUnknown cause), w')
      end
  end.

Record ProcedureBuilder := mkBuilder { middlewares : list Middleware }.

(** [t.procedure] *)
Definition procedure : ProcedureBuilder := mkBuilder [].

(** [.use(middleware)] *)
Definition use (p : ProcedureBuilder) (m : Middleware) : ProcedureBuilder :=
  mkBuilder (middlewares p ++ [m]).

(** The middleware [.input(parser)] adds: parse the raw input, fail with
    [BAD_REQUEST] when the parser rejects it, pass the parsed input on
    (merged into the input of an earlier parser when both are objects).
    Of the error for a rejected input the model keeps the code alone: tRPC
    gives it the parser's own error as cause and the message of that error
    as message, and both are the parser's business. *)
Definition combineInput (previous parsedInput : Json) : Json :=
  match previous, parsedInput with
  | JObject a, JObject b =>
      JObject (b ++ filter (fun kv => negb (bool_decide (is_Some (assoc (fst kv) b)))) a)
  | _, _ => parsedInput
  end.

Definition inputMiddleware (parse : Json → option Json) : Middleware :=
  fun options next =>
    match parse (rawInput options) with
    | Some parsedInput =>
        await_next next
          (mkNextOpts None (Some (combineInput (input options) parsedInput)))
    | None => throw (ThrowTRPC (newTRPCError BAD_REQUEST))
    end.

Definition input_ (p : ProcedureBuilder) (parse : Json → option Json) : ProcedureBuilder :=
  use p (inputMiddleware parse).

(** The last link of a chain: the resolver given to [.query] or
    [.mutation]. *)
Definition Resolver : Type := CallOpts → Async Json.

(** Bookkeeping of the model: a resolver is about to run. *)
Definition started : Async unit :=
  fun w => (inl tt, set_resolverRuns (S (resolverRuns w)) w).

Definition resolverMiddleware (resolver : Resolver) : Middleware :=
  fun options _ =>
    started ;;;
    data <- resolver options ;;
    ret (MOk data (ctx options)).

(** The options a call starts from: the caller of
    [experimental_nextAppDirCaller] is given no context constructor, so
    the context is empty. *)
Definition initialOpts (raw : Json) : CallOpts := mkCallOpts ∅ JNull raw.

(** tRPC's call of a finished procedure: a failed result is thrown, a
    successful one yields its data.  This is the call the caller adapter
    of lines 77-81 is handed; what the adapter does with a thrown error
    before it reaches the code that called the procedure (an error with
    code [NOT_FOUND], or one caused by a navigation error of Next, is
    turned over to Next) is not part of it. *)
Definition invoke (p : ProcedureBuilder) (resolver : Resolver) (raw : Json) : Async Json :=
  fun w =>
    match callRecursive (middlewares p ++ [resolverMiddleware resolver])
                        (initialOpts raw) w with
    | (MOk data _, w') => (inl data, w')
    | (MErr e, w') => (inr (ThrowTRPC e), w')
    end.

(** [z.object({ boardId: z.string() })]: an object with a string [boardId];
    unknown keys are stripped. *)
Definition boardIdSchema (raw : Json) : option Json :=
  match raw with
  | JObject fields =>
      match assoc "boardId" fields with
      | Some (JString s) => Some (JObject [("boardId", JString s)])
      | _ => None
      end
  | _ => None
  end.

(** ** The procedures of [trpc.ts] *)

Section Procedures.

(** [t._config.isDev] *)
Variable isDev : bool.

(** The key Next's [unstable_cache] files an entry under.  Next derives
    it from the text of the callback, the key parts and the arguments of
    the call; the callback and the (empty) argument list are the same at
    every call this file makes, so the key is a function of the key
    parts, with the tags as a second argument for a store that keys by
    them as well. *)
Variable cacheKey : list string → list string → string.

(** React's [cache] around the context constructor.  Inside a render of
    Server Components the first call of a request runs the body and
    remembers what it returned, and later calls return what was
    remembered.  Outside a render there is no memo table: every call runs
    the body, and nothing is remembered.  (The body of [createContext]
    does not throw in this model, so what [cache] does with a thrown value
    plays no part.) *)
Definition cache (body : Async Context) : Async Context :=
  fun w =>
    if rendering w then
      match contextMemo w with
      | Some c => (inl c, w)
      | None =>
          match body w with
          | (inl c, w') => (inl c, set_contextMemo (Some c) w')
          | (inr t, w') => (inr t, w')
          end
      end
    else body w.

(** Next's [unstable_cache(cb, keyParts, { tags })()]: a stored entry is
    returned without running [cb]; otherwise [cb] runs, and what it
    returns is stored with the tags; what it throws is not stored. *)
Definition unstable_cache (cb : Async MiddlewareResult)
    (keyParts : list string) (tags_ : list string) : Async MiddlewareResult :=
  fun w =>
    match dataCache w !! cacheKey keyParts tags_ with
    | Some entry => (inl (value entry), w)
    | None =>
        match cb w with
        | (inl res, w') =>
            (inl res,
             set_dataCache
               (<[cacheKey keyParts tags_ := mkCacheEntry res tags_]> (dataCache w')) w')
        | (inr t, w') => (inr t, w')
        end
    end.

(** Lines 20-32. *)
Definition createContext : Async Context :=
  cache (session <- authjs ;;
         let log := console in
         ret {| log := log; user := session |}).

(** Lines 38-76: the base step. *)
Definition nextProc_step : Middleware :=
  fun options next =>
    context <- createContext ;;
    let log := log context in
    (if isDev then
       r <- Math_random ;;
       let waitMs := Math_floor (SFmul prec emax r float_400) + 100 in
       setTimeout_await waitMs
     else ret tt) ;;;
    start <- Date_now ;;
    res <- await_next next
             (with_ctx (<["log" := VLog log]> (contextFields context))) ;;
    now <- Date_now ;;
    let duration := now - start in
    (match res with
     | MOk data _ => log_info log duration data
     | MErr error => log_error log duration error
     end) ;;;
    ret res.

Definition nextProc : ProcedureBuilder := use procedure nextProc_step.

(** Line 84. *)
Definition publicAction : ProcedureBuilder := nextProc.

(** Lines 88-103: the authentication step. *)
Definition protectedAction_step : Middleware :=
  fun options next =>
    user <- authjs ;;
    match user with
    | None => throw (ThrowTRPC (newTRPCError UNAUTHORIZED))
    | Some user =>
        await_next next (with_ctx (<["user" := VUser user]> (ctx options)))
    end.

Definition protectedAction : ProcedureBuilder := use nextProc protectedAction_step.

(** [options.ctx.user.id]: reading [id] of [null] or of a missing field
    is a [TypeError]. *)
Definition ctx_user_id (c : Ctx) : Async string :=
  match c !! "user" with
  | Some (VUser u) => ret (User.id u)
  | _ => throw (ThrowError "Cannot read properties of undefined (reading 'id')")
  end.

(** [options.input.boardId]: the parser in front of the step has made
    the input an object with a string [boardId]. *)
Definition input_boardId (i : Json) : Async string :=
  match i with
  | JObject fields =>
      match assoc "boardId" fields with
      | Some (JString s) => ret s
      | _ => throw (ThrowError "boardId is not a string")
      end
  | _ => throw (ThrowError "Cannot read properties of undefined (reading 'boardId')")
  end.

(** The filter of lines 117-121:
    [and(eq(fields.ownerId, userId), eq(fields.id, boardId))]. *)
Definition where_ (userId boardId : string) (fields : Board.t) : bool :=
  String.eqb (Board.ownerId fields) userId && String.eqb (Board.id fields) boardId.

(** Lines 115-135: the board step. *)
Definition protectedBoardAction_step : Middleware :=
  fun options next =>
    userId <- ctx_user_id (ctx options) ;;
    boardId <- input_boardId (input options) ;;
    board <- findFirst (where_ userId boardId) ;;
    match board with
    | None => throw (ThrowTRPC (newTRPCError FORBIDDEN))
    | Some board => await_next next (with_ctx {[ "board" := VBoard board ]})
    end.

Definition protectedBoardAction : ProcedureBuilder :=
  use (input_ protectedAction boardIdSchema) protectedBoardAction_step.

(** Lines 138-157: the caching step. *)
Definition cachedDataLayer_step (cacheTag : string) : Middleware :=
  fun options next =>
    userId <- ctx_user_id (ctx options) ;;
    unstable_cache
      (res <- await_next next no_opts ;;
       if negb (ok res)
       then throw (ThrowTRPC (newTRPCError INTERNAL_SERVER_ERROR))
       else ret res)
      [userId]
      [cacheTag].

Definition cachedDataLayer (cacheTag : string) : ProcedureBuilder :=
  use protectedAction (cachedDataLayer_step cacheTag).

End Procedures.

Arguments createContext : simpl never.

(** ** Vocabulary of the statements

    Names for the worlds and contexts a chain goes through, and the
    concrete worlds the examples run in. *)

(** The context built from the next answer of the session resolution. *)
Definition freshContext (w : World) : Context :=
  {| log := console; user := sessions w (authCalls w) |}.

(** The context [createContext] hands out in a world: inside a render the
    remembered one if there is one, in every other case the one built from
    the next answer of the session resolution. *)
Definition currentContext (w : World) : Context :=
  if rendering w then
    match contextMemo w with
    | Some c => c
    | None => freshContext w
    end
  else freshContext w.

(** The world [createContext] leaves. *)
Definition contextReady (w : World) : World :=
  if rendering w then
    match contextMemo w with
    | Some _ => w
    | None =>
        set_contextMemo (Some (freshContext w)) (set_authCalls (S (authCalls w)) w)
    end
  else set_authCalls (S (authCalls w)) w.

(** The delay the base step asks for, from the number drawn. *)
Definition waitMs (r : spec_float) : Z :=
  Math_floor (SFmul prec emax r float_400) + 100.

(** The world after the optional delay of the base step. *)
Definition delayed (isDev : bool) (w : World) : World :=
  if isDev then
    let ms := waitMs (randoms w (randomCalls w)) in
    set_clock (clock w + ms)
      (set_timers (timers w ++ [ms]) (set_randomCalls (S (randomCalls w)) w))
  else w.

(** The record the base step writes for an outcome. *)
Definition outcomeRecord (duration : Z) (res : MiddlewareResult) : LogRecord :=
  match res with
  | MOk data _ => LogInfo duration data
  | MErr error => LogError duration error
  end.

(** The answer session resolution gives to the authentication step of a
    request that enters the chain in world [w]: the base step has called
    [createContext] before. *)
Definition sessionAtAuthStep (w : World) : option User.t :=
  sessions w (authCalls (contextReady w)).

(** The context the authentication step receives from the base step. *)
Definition baseCtx (opts : CallOpts) (w : World) : Ctx :=
  spread (ctx opts) (contextFields (currentContext w)).

(** The world in which the step after the authentication step starts. *)
Definition authenticated (isDev : bool) (w : World) : World :=
  set_authCalls (S (authCalls (contextReady w))) (delayed isDev (contextReady w)).

(** What the base step does with the outcome of the chain: log it and
    hand it back. *)
Definition finish (started_at : Z) (res : MiddlewareResult) (w : World)
    : MiddlewareResult * World :=
  (res, set_logged (logged w ++ [outcomeRecord (clock w - started_at) res]) w).

(** A step that only answers, whatever it is given: a probe for whether
    the rest of a chain is reached. *)
Definition answer (data : Json) : Middleware :=
  fun options _ => ret (MOk data (ctx options)).

(** A request in which the context is read several times: [createContext]
    is called, the first of [between] acts on the world, [createContext]
    is called again, and so on, once for each element of [between].  The
    result lists what the calls returned and counts the session lookups
    they made. *)
Fixpoint readContexts (between : list (World → World)) (w : World)
    : list (Context + Thrown) * nat * World :=
  match between with
  | [] => ([], 0%nat, w)
  | f :: fs =>
      let (r, w1) := createContext w in
      let '(rs, lookups, w2) := readContexts fs (f w1) in
      (r :: rs, (authCalls w1 - authCalls w + lookups)%nat, w2)
  end.

(** Steps that leave the memo table of the request alone, and neither
    enter nor leave a render. *)
Definition sameRequest (between : list (World → World)) : Prop :=
  Forall (fun f => ∀ w, contextMemo (f w) = contextMemo w ∧
                        rendering (f w) = rendering w) between.

(** The four procedure variants the file exports. *)
Definition variants (isDev : bool) (cacheKey : list string → list string → string)
    (cacheTag : string) : list ProcedureBuilder :=
  [publicAction isDev; protectedAction isDev; protectedBoardAction isDev;
   cachedDataLayer isDev cacheKey cacheTag].

(** Two users and their boards. *)
Definition alice : User.t := User.mk "u1" "alice@example.com".
Definition bob : User.t := User.mk "u2" "bob@example.com".
Definition aliceBoard : Board.t := Board.mk "b1" "u1" "Roadmap".
Definition bobBoard : Board.t := Board.mk "b2" "u2" "Backlog".

(** The float [0.5]. *)
Definition float_half : spec_float := S754_finite false 4503599627370496 (-53).

(** A world at the start of a request that renders Server Components,
    with the given answers of session resolution, the two boards and an
    empty cache. *)
Definition worldOf (answers : nat → option User.t) : World :=
  {| sessions := answers;
     authCalls := 0;
     clock := 0;
     randoms := fun _ => float_half;
     randomCalls := 0;
     timers := [];
     boards := [aliceBoard; bobBoard];
     dataCache := ∅;
     contextMemo := None;
     logged := [];
     resolverRuns := 0;
     rendering := true |}.

(** The first user is signed in; nobody is; the session changes hands
    while a request is under way (the first call of session resolution
    answers with the first user, the later ones with the second). *)
Definition signedIn : World := worldOf (fun _ => Some alice).
Definition signedOut : World := worldOf (fun _ => None).
Definition changingSessions : World :=
  worldOf (fun k => match k with O => Some alice | S _ => Some bob end).

(** A key derivation that uses the key parts alone. *)
Definition joinKey (keyParts tags_ : list string) : string :=
  String.concat "," keyParts.

(** Two handlers: one answers, one fails. *)
Definition hello : Resolver := fun _ => ret (JString "hello").
Definition notFound : Resolver :=
  fun _ => throw (ThrowTRPC (newTRPCError NOT_FOUND)).

(** Every field of [received] is a field of [passed], with the same
    value. *)
Definition keepsFields (received passed : Ctx) : Prop :=
  ∀ k v, received !! k = Some v → passed !! k = Some v.

(** Every field of [received] is still a field of [passed], and the fields
    not named in [own] are the same in both. *)
Definition extendsBy (own : list string) (received passed : Ctx) : Prop :=
  (∀ k, is_Some (received !! k) → is_Some (passed !! k)) ∧
  (∀ k, k ∉ own → passed !! k = received !! k).

(** The literal [1] as a binary64 float. *)
Definition float_1 : spec_float := S754_finite false 4503599627370496 (-52).

(** What [Math.random()] may return: a binary64 float in [0, 1). *)
Definition unitFloat (r : spec_float) : bool :=
  valid_binary prec emax r && SFleb (S754_zero false) r && SFltb r float_1.

(** The record after [k] shifts of the integer [M]: its mantissa is
    [M / 2^k], and its round bit is set only when the part shifted out is
    at least half a unit. *)
Definition shifted (M k : Z) (mrs : shr_record) : Prop :=
  shr_m mrs = M / 2 ^ k ∧ (shr_r mrs = true → 2 ^ k ≤ 2 * (M mod 2 ^ k)).

(** What follows a step leaves a field of the world as it found it. *)
Definition leavesAlone {A} (field : World → A) (rest : list Middleware) : Prop :=
  ∀ o w, field (snd (callRecursive rest o w)) = field w.

(** A handler leaves a field of the world as it found it. *)
Definition handlerLeaves {A} (field : World → A) (resolver : Resolver) : Prop :=
  ∀ o w, field (snd (resolver o w)) = field w.

(** A raw input with a string [boardId]: what the schema of the board
    variant accepts. *)
Definition hasBoardId (raw : Json) (boardId : string) : Prop :=
  ∃ fields, raw = JObject fields ∧ assoc "boardId" fields = Some (JString boardId).

(** What follows a step takes [d] milliseconds, whatever it is given. *)
Definition takes (d : Z) (rest : list Middleware) : Prop :=
  ∀ o w, clock (snd (callRecursive rest o w)) = clock w + d.

(** A handler that works for [d] milliseconds and answers. *)
Definition working (d : Z) : Resolver :=
  fun _ w => (inl (JString "done"), set_clock (clock w + d) w).

(** ** Running a chain

    The lemmas of this part evaluate [callRecursive] on the chains the file
    builds, one step at a time. *)

Lemma createContext_run w :
  createContext w = (inl (currentContext w), contextReady w).
Proof.
  unfold createContext, cache, currentContext, contextReady, freshContext.
  destruct (rendering w); [destruct (contextMemo w)|]; reflexivity.
Qed.

Lemma contextFields_log c :
  <["log" := VLog (log c)]> (contextFields c) = contextFields c.
Proof.
  apply insert_id. unfold contextFields.
  by rewrite lookup_insert_eq.
Qed.

Lemma spread_insert (c : Ctx) k v : spread c (<[k := v]> c) = <[k := v]> c.
Proof.
  unfold spread. apply map_eq. intros j.
  rewrite lookup_union. destruct (decide (k = j)) as [->|Hne].
  - rewrite lookup_insert_eq. by destruct (c !! j).
  - rewrite lookup_insert_ne by done. by destruct (c !! j).
Qed.

Lemma spread_lookup (a b : Ctx) k :
  spread a b !! k = match b !! k with Some v => Some v | None => a !! k end.
Proof.
  unfold spread. rewrite lookup_union.
  destruct (b !! k), (a !! k); reflexivity.
Qed.

Lemma nextProc_step_run isDev options next w :
  nextProc_step isDev options next w =
    let w1 := delayed isDev (contextReady w) in
    let (res, w2) := next (with_ctx (contextFields (currentContext w))) w1 in
    (inl res, set_logged (logged w2 ++ [outcomeRecord (clock w2 - clock w1) res]) w2).
Proof.
  unfold nextProc_step, bind. rewrite createContext_run.
  rewrite contextFields_log.
  destruct isDev; cbn [delayed];
    unfold Math_random, setTimeout_await, Date_now, await_next, ret, waitMs; cbn.
  - destruct (next _ _) as [res w2]; destruct res; reflexivity.
  - destruct (next _ _) as [res w2]; destruct res; reflexivity.
Qed.

Lemma protectedAction_step_run options next w :
  protectedAction_step options next w =
    match sessions w (authCalls w) with
    | None =>
        (inr (ThrowTRPC (newTRPCError UNAUTHORIZED)), set_authCalls (S (authCalls w)) w)
    | Some u =>
        let (res, w') := next (with_ctx (<["user" := VUser u]> (ctx options)))
                              (set_authCalls (S (authCalls w)) w) in
        (inl res, w')
    end.
Proof.
  unfold protectedAction_step, bind, authjs.
  destruct (sessions w (authCalls w)); reflexivity.
Qed.

Lemma callRecursive_cons middleware rest opts w :
  callRecursive (middleware :: rest) opts w =
    match middleware opts (fun o => callRecursive rest (nextCallOpts opts o)) w with
    | (inl result, w') => (result, w')
    | (inr cause, w') => (MErr (getTRPCErrorFromUnknown cause), w')
    end.
Proof. reflexivity. Qed.

(** A chain that starts with the base step: the rest runs in the context
    of [createContext], and its outcome is logged and handed back. *)
Lemma nextProc_chain isDev rest opts w :
  callRecursive (nextProc_step isDev :: rest) opts w =
    let w1 := delayed isDev (contextReady w) in
    let (res, w2) :=
      callRecursive rest
        (mkCallOpts (spread (ctx opts) (contextFields (currentContext w)))
                    (input opts) (rawInput opts)) w1 in
    (res, set_logged (logged w2 ++ [outcomeRecord (clock w2 - clock w1) res]) w2).
Proof.
  rewrite callRecursive_cons, nextProc_step_run. cbn.
  unfold nextCallOpts; cbn.
  destruct (callRecursive rest _ _) as [res w2]. reflexivity.
Qed.

(** A chain that starts with the authentication step. *)
Lemma protectedAction_chain rest opts w :
  callRecursive (protectedAction_step :: rest) opts w =
    match sessions w (authCalls w) with
    | None => (MErr (newTRPCError UNAUTHORIZED), set_authCalls (S (authCalls w)) w)
    | Some u =>
        callRecursive rest
          (mkCallOpts (<["user" := VUser u]> (ctx opts)) (input opts) (rawInput opts))
          (set_authCalls (S (authCalls w)) w)
    end.
Proof.
  rewrite callRecursive_cons, protectedAction_step_run.
  destruct (sessions w (authCalls w)) as [u|]; [|reflexivity].
  unfold nextCallOpts; cbn. rewrite spread_insert.
  destruct (callRecursive rest _ _) as [res w2]. reflexivity.
Qed.

Lemma protectedAction_middlewares isDev :
  middlewares (protectedAction isDev) = [nextProc_step isDev; protectedAction_step].
Proof. reflexivity. Qed.

Lemma delayed_sessions isDev w : sessions (delayed isDev w) = sessions w.
Proof. by destruct isDev. Qed.

Lemma delayed_authCalls isDev w : authCalls (delayed isDev w) = authCalls w.
Proof. by destruct isDev. Qed.

Lemma contextReady_sessions w : sessions (contextReady w) = sessions w.
Proof. unfold contextReady. by destruct (rendering w), (contextMemo w). Qed.

(** A chain that starts with an input parser. *)
Lemma inputMiddleware_chain parse rest opts w :
  callRecursive (inputMiddleware parse :: rest) opts w =
    match parse (rawInput opts) with
    | Some parsedInput =>
        callRecursive rest
          (mkCallOpts (ctx opts) (combineInput (input opts) parsedInput) (rawInput opts)) w
    | None => (MErr (newTRPCError BAD_REQUEST), w)
    end.
Proof.
  rewrite callRecursive_cons. unfold inputMiddleware.
  destruct (parse (rawInput opts)) as [parsed|]; [|reflexivity].
  unfold await_next, nextCallOpts; cbn.
  destruct (callRecursive rest _ _) as [res w2]. reflexivity.
Qed.

(** The filter of the board step holds of exactly the boards with the
    given owner and identifier. *)
Lemma where_spec userId boardId board :
  where_ userId boardId board = true ↔
  Board.ownerId board = userId ∧ Board.id board = boardId.
Proof.
  unfold where_. rewrite andb_true_iff, !String.eqb_eq. reflexivity.
Qed.

(** A chain that starts with the board step, once the context holds a user
    and the input a [boardId]. *)
Lemma protectedBoardAction_chain rest opts w u fields boardId :
  ctx opts !! "user" = Some (VUser u) →
  input opts = JObject fields →
  assoc "boardId" fields = Some (JString boardId) →
  callRecursive (protectedBoardAction_step :: rest) opts w =
    match List.find (where_ (User.id u) boardId) (boards w) with
    | None => (MErr (newTRPCError FORBIDDEN), w)
    | Some board =>
        callRecursive rest
          (mkCallOpts (spread (ctx opts) {[ "board" := VBoard board ]})
                      (input opts) (rawInput opts)) w
    end.
Proof.
  intros Huser Hinput Hid.
  rewrite callRecursive_cons. unfold protectedBoardAction_step, bind, ctx_user_id.
  rewrite Huser, Hinput. cbn. rewrite Hid. cbn.
  destruct (List.find _ (boards w)) as [board|]; [|reflexivity].
  unfold await_next, nextCallOpts; cbn. rewrite Hinput.
  destruct (callRecursive rest _ _) as [res w2]. reflexivity.
Qed.

Lemma protectedBoardAction_middlewares isDev :
  middlewares (protectedBoardAction isDev) =
    [nextProc_step isDev; protectedAction_step;
     inputMiddleware boardIdSchema; protectedBoardAction_step].
Proof. reflexivity. Qed.

(** The parsed input keeps its [boardId] when merged into an earlier one. *)
Lemma combineInput_boardId previous s :
  ∃ fields, combineInput previous (JObject [("boardId", JString s)]) = JObject fields
            ∧ assoc "boardId" fields = Some (JString s).
Proof.
  destruct previous; cbn; eexists; (split; [reflexivity|reflexivity]).
Qed.

Lemma delayed_boards isDev w : boards (delayed isDev w) = boards w.
Proof. by destruct isDev. Qed.

Lemma contextReady_boards w : boards (contextReady w) = boards w.
Proof. unfold contextReady. by destruct (rendering w), (contextMemo w). Qed.

Lemma delayed_dataCache isDev w : dataCache (delayed isDev w) = dataCache w.
Proof. by destruct isDev. Qed.

Lemma contextReady_dataCache w : dataCache (contextReady w) = dataCache w.
Proof. unfold contextReady. by destruct (rendering w), (contextMemo w). Qed.

Lemma delayed_resolverRuns isDev w : resolverRuns (delayed isDev w) = resolverRuns w.
Proof. by destruct isDev. Qed.

Lemma contextReady_resolverRuns w : resolverRuns (contextReady w) = resolverRuns w.
Proof. unfold contextReady. by destruct (rendering w), (contextMemo w). Qed.

Lemma delayed_logged isDev w : logged (delayed isDev w) = logged w.
Proof. by destruct isDev. Qed.

Lemma contextReady_logged w : logged (contextReady w) = logged w.
Proof. unfold contextReady. by destruct (rendering w), (contextMemo w). Qed.

Lemma nextCallOpts_no_opts opts : nextCallOpts opts no_opts = opts.
Proof. by destruct opts. Qed.

(** A chain that starts with the caching step, once the context holds a
    user. *)
Lemma cachedDataLayer_chain cacheKey cacheTag rest opts w u :
  ctx opts !! "user" = Some (VUser u) →
  callRecursive (cachedDataLayer_step cacheKey cacheTag :: rest) opts w =
    match dataCache w !! cacheKey [User.id u] [cacheTag] with
    | Some entry => (value entry, w)
    | None =>
        match callRecursive rest opts w with
        | (MOk data c, w') =>
            (MOk data c,
             set_dataCache
               (<[cacheKey [User.id u] [cacheTag] := mkCacheEntry (MOk data c) [cacheTag]]>
                  (dataCache w')) w')
        | (MErr _, w') => (MErr (newTRPCError INTERNAL_SERVER_ERROR), w')
        end
    end.
Proof.
  intros Huser.
  rewrite callRecursive_cons.
  unfold cachedDataLayer_step, bind, ctx_user_id. rewrite Huser. cbn.
  unfold unstable_cache.
  destruct (dataCache w !! _) as [entry|]; [reflexivity|].
  unfold bind, await_next. rewrite nextCallOpts_no_opts.
  destruct (callRecursive rest opts w) as [[data c|e] w']; reflexivity.
Qed.

Lemma cachedDataLayer_middlewares isDev cacheKey cacheTag :
  middlewares (cachedDataLayer isDev cacheKey cacheTag) =
    [nextProc_step isDev; protectedAction_step; cachedDataLayer_step cacheKey cacheTag].
Proof. reflexivity. Qed.

(** A chain that consists of a resolver. *)
Lemma resolverMiddleware_chain resolver opts w :
  callRecursive [resolverMiddleware resolver] opts w =
    match resolver opts (set_resolverRuns (S (resolverRuns w)) w) with
    | (inl data, w') => (MOk data (ctx opts), w')
    | (inr cause, w') => (MErr (getTRPCErrorFromUnknown cause), w')
    end.
Proof.
  rewrite callRecursive_cons. unfold resolverMiddleware, bind, started, ret.
  destruct (resolver opts _) as [[data|cause] w']; reflexivity.
Qed.

(** A chain built on [protectedAction], called with a session [u]. *)
Lemma protectedAction_run isDev rest opts w u :
  sessionAtAuthStep w = Some u →
  callRecursive (nextProc_step isDev :: protectedAction_step :: rest) opts w =
    let w1 := authenticated isDev w in
    let (res, w2) :=
      callRecursive rest
        (mkCallOpts (<["user" := VUser u]> (baseCtx opts w)) (input opts) (rawInput opts))
        w1 in
    finish (clock w1) res w2.
Proof.
  unfold sessionAtAuthStep. intros Hsession.
  rewrite nextProc_chain. cbn zeta.
  rewrite protectedAction_chain.
  rewrite delayed_sessions, delayed_authCalls, contextReady_sessions, Hsession.
  reflexivity.
Qed.

Lemma readContexts_memo between w c :
  sameRequest between →
  rendering w = true →
  contextMemo w = Some c →
  ∃ w', readContexts between w = (replicate (length between) (inl c), 0%nat, w').
Proof.
  intros Hsame. revert w.
  induction Hsame as [|f fs Hf _ IH]; intros w Hrender Hmemo.
  - eexists. reflexivity.
  - cbn [readContexts]. rewrite createContext_run.
    unfold currentContext, contextReady. rewrite Hrender, Hmemo.
    destruct (Hf w) as [Hfmemo Hfrender].
    destruct (IH (f w)) as [w' Hrest]; [congruence..|].
    rewrite Hrest. exists w'. cbn. by rewrite Nat.sub_diag.
Qed.

Lemma readContexts_outside between w :
  sameRequest between →
  rendering w = false →
  ∃ results w',
    readContexts between w = (results, length between, w') ∧
    length results = length between.
Proof.
  intros Hsame. revert w.
  induction Hsame as [|f fs Hf _ IH]; intros w Hrender.
  - by exists [], w.
  - cbn [readContexts]. rewrite createContext_run.
    unfold currentContext, contextReady. rewrite Hrender.
    destruct (Hf (set_authCalls (S (authCalls w)) w)) as [_ Hfrender].
    destruct (IH (f (set_authCalls (S (authCalls w)) w)))
      as (results & w' & Hrest & Hlen); [by rewrite Hfrender|].
    rewrite Hrest. eexists _, w'. split.
    + cbn [authCalls set_authCalls length].
      by replace (S (authCalls w) - authCalls w)%nat with 1%nat by lia.
    + cbn [length]. by rewrite Hlen.
Qed.

Lemma extendsBy_insert k v (c : Ctx) : extendsBy [k] c (<[k := v]> c).
Proof.
  split.
  - intros j Hj. destruct (decide (k = j)) as [->|Hne].
    + rewrite lookup_insert_eq. by eexists.
    + by rewrite lookup_insert_ne.
  - intros j Hj. rewrite lookup_insert_ne; [done|].
    intros ->. apply Hj. by apply list_elem_of_singleton.
Qed.

Lemma contextFields_other c k :
  k ∉ ["log"; "user"] → contextFields c !! k = None.
Proof.
  intros Hk. unfold contextFields.
  rewrite lookup_insert_ne.
  - rewrite lookup_singleton_ne; [done|]. intros <-. apply Hk. set_solver.
  - intros <-. apply Hk. set_solver.
Qed.

Lemma extendsBy_spread own (c extra : Ctx) :
  (∀ k, k ∉ own → extra !! k = None) → extendsBy own c (spread c extra).
Proof.
  intros Hextra. split.
  - intros k [v Hk]. rewrite spread_lookup, Hk. destruct (extra !! k); by eexists.
  - intros k Hk. by rewrite spread_lookup, (Hextra k Hk).
Qed.

Lemma keepsFields_spread_fresh (c extra : Ctx) :
  (∀ k, is_Some (extra !! k) → c !! k = None) → keepsFields c (spread c extra).
Proof.
  intros Hfresh k v Hk. rewrite spread_lookup.
  destruct (extra !! k) as [v'|] eqn:Hextra; [|exact Hk].
  rewrite (Hfresh k) in Hk by (by eexists). discriminate Hk.
Qed.

(** ** The delay of the base step

    [Math.floor(Math.random() * 400) + 100] in binary64 arithmetic: the
    product is rounded to nearest, and stays below 400. *)

Lemma digits2_pos_size p : digits2_pos p = Pos.size p.
Proof. induction p; cbn; congruence. Qed.

Lemma digits2_pos_gt p : Zpos p < 2 ^ Zpos (digits2_pos p).
Proof.
  rewrite digits2_pos_size.
  pose proof (Pos.size_gt p) as H.
  apply Pos2Z.pos_lt_pos in H. by rewrite Pos2Z.inj_pow in H.
Qed.

Lemma digits2_pos_le p n : 0 ≤ n → Zpos p < 2 ^ n → Zpos (digits2_pos p) ≤ n.
Proof.
  intros Hn Hp. rewrite digits2_pos_size.
  pose proof (Pos.size_le p) as H.
  apply Pos2Z.pos_le_pos in H. rewrite Pos2Z.inj_pow in H.
  change (Z.pos p~0) with (2 * Z.pos p) in H.
  destruct (Z_le_gt_dec (Zpos (Pos.size p)) n) as [|Hgt]; [done|].
  assert (Hle : 2 ^ (n + 1) ≤ 2 ^ Zpos (Pos.size p)) by (apply Z.pow_le_mono_r; lia).
  rewrite Z.pow_add_r, Z.pow_1_r in Hle by lia. lia.
Qed.

Lemma shifted_0 M : shifted M 0 (Build_shr_record M false false).
Proof. split; cbn; [by rewrite Z.div_1_r|discriminate]. Qed.

Lemma shr_1_shifted M k mrs :
  0 ≤ M → 0 ≤ k → shifted M k mrs → shifted M (k + 1) (shr_1 mrs).
Proof.
  intros HM Hk [Hm Hr].
  assert (Hpow : 0 < 2 ^ k) by (apply Z.pow_pos_nonneg; lia).
  assert (Hdiv : M / 2 ^ (k + 1) = shr_m mrs / 2).
  { rewrite Z.pow_add_r, Z.pow_1_r by lia. rewrite <- Z.div_div by lia. by rewrite Hm. }
  assert (Hmod : M mod 2 ^ (k + 1) = M mod 2 ^ k + 2 ^ k * (shr_m mrs mod 2)).
  { rewrite Z.pow_add_r, Z.pow_1_r by lia. rewrite Z.rem_mul_r by lia. by rewrite Hm. }
  assert (Hnonneg : 0 ≤ shr_m mrs) by (rewrite Hm; apply Z.div_pos; lia).
  pose proof (Z.mod_pos_bound M (2 ^ k) Hpow) as Hbound.
  unfold shifted. rewrite Hdiv, Hmod, Z.pow_add_r, Z.pow_1_r by lia.
  destruct mrs as [m r s]. cbn [shr_m shr_r] in *.
  destruct m as [|[p|p|]|p]; cbn [shr_1 shr_m shr_r]; try lia.
  - split; [reflexivity|discriminate].
  - change (Z.pos p~1) with (2 * Z.pos p + 1).
    replace ((2 * Z.pos p + 1) / 2) with (Z.pos p)
      by (apply (Z.div_unique _ _ _ 1); lia).
    replace ((2 * Z.pos p + 1) mod 2) with 1
      by (apply (Z.mod_unique _ _ (Z.pos p)); lia).
    split; [reflexivity|intros _; lia].
  - change (Z.pos p~0) with (2 * Z.pos p).
    replace ((2 * Z.pos p) / 2) with (Z.pos p)
      by (apply (Z.div_unique _ _ _ 0); lia).
    split; [reflexivity|discriminate].
  - split; [reflexivity|intros _]. change (1 mod 2) with 1. lia.
Qed.

Lemma iter_pos_shr_1_shifted M p : 0 ≤ M →
  ∀ k mrs, 0 ≤ k → shifted M k mrs → shifted M (k + Zpos p) (SpecFloat.iter_pos shr_1 p mrs).
Proof.
  intros HM. induction p as [p IH|p IH|]; intros k mrs Hk Hs; cbn [SpecFloat.iter_pos].
  - replace (k + Z.pos p~1) with (k + 1 + Z.pos p + Z.pos p) by lia.
    apply IH; [lia|]. apply IH; [lia|]. by apply shr_1_shifted.
  - replace (k + Z.pos p~0) with (k + Z.pos p + Z.pos p) by lia.
    apply IH; [lia|]. by apply IH.
  - by apply shr_1_shifted.
Qed.

(** Shifting an exact integer to its format exponent. *)
Lemma shr_fexp_exact M e : 0 ≤ M →
  ∃ k mrs,
    shr_fexp prec emax M e loc_Exact = (mrs, e + k) ∧
    k = Z.max 0 (fexp prec emax (Zdigits2 M + e) - e) ∧
    shifted M k mrs.
Proof.
  intros HM. unfold shr_fexp, shr. cbn [shr_record_of_loc].
  destruct (fexp prec emax (Zdigits2 M + e) - e) as [|n|n] eqn:Hn.
  - exists 0, (Build_shr_record M false false).
    rewrite Z.add_0_r. split; [done|]. split; [lia|]. apply shifted_0.
  - exists (Zpos n), (SpecFloat.iter_pos shr_1 n (Build_shr_record M false false)).
    split; [done|]. split; [lia|].
    apply (iter_pos_shr_1_shifted M n HM 0); [lia|apply shifted_0].
  - exists 0, (Build_shr_record M false false).
    rewrite Z.add_0_r. split; [done|]. split; [lia|]. apply shifted_0.
Qed.

(** Rounding to nearest adds at most half a unit of the last place. *)
Lemma round_nearest_even_bound M k mrs :
  0 ≤ M → 0 ≤ k → shifted M k mrs →
  let Q := round_nearest_even (shr_m mrs) (loc_of_shr_record mrs) in
  0 ≤ Q ∧ 2 * (Q * 2 ^ k) ≤ 2 * M + 2 ^ k.
Proof.
  intros HM Hk [Hm Hr] Q.
  assert (Hpow : 0 < 2 ^ k) by (apply Z.pow_pos_nonneg; lia).
  pose proof (Z.div_mod M (2 ^ k) ltac:(lia)) as Hdm.
  pose proof (Z.mod_pos_bound M (2 ^ k) Hpow) as Hbound.
  assert (Hnonneg : 0 ≤ shr_m mrs) by (rewrite Hm; apply Z.div_pos; lia).
  assert (HQ : Q = shr_m mrs ∨ (Q = shr_m mrs + 1 ∧ shr_r mrs = true)).
  { unfold Q. destruct mrs as [m [] []]; cbn; try (left; reflexivity).
    - right; done.
    - destruct (Z.even m); [left|right]; done. }
  rewrite Hm in HQ.
  destruct HQ as [->|[-> Hround]].
  - split; [apply Z.div_pos; lia|]. nia.
  - specialize (Hr Hround). split; [pose proof (Z.div_pos M (2^k)); lia|]. nia.
Qed.

(** A valid float in [0, 1): its mantissa is below [2^53] and its exponent
    at most [-53]. *)
Lemma unitFloat_finite s m e :
  unitFloat (S754_finite s m e) = true →
  s = false ∧ Zpos m < 2 ^ 53 ∧ -1074 ≤ e ≤ -53.
Proof.
  unfold unitFloat. rewrite !andb_true_iff. intros [[Hvalid Hpos] Hlt].
  destruct s; [discriminate Hpos|]. split; [reflexivity|].
  cbn [valid_binary] in Hvalid. unfold bounded in Hvalid.
  apply andb_true_iff in Hvalid as [Hcanon _].
  unfold canonical_mantissa, fexp, emin, prec, emax in Hcanon.
  apply Z.eqb_eq in Hcanon.
  pose proof (digits2_pos_gt m) as Hgt.
  assert (Hd : Zpos (digits2_pos m) ≤ 53) by lia.
  assert (Hm : Zpos m < 2 ^ 53).
  { eapply Z.lt_le_trans; [exact Hgt|]. apply Z.pow_le_mono_r; lia. }
  split; [exact Hm|]. split; [lia|].
  unfold SFltb, float_1, SFcompare in Hlt.
  destruct (e ?= -52) eqn:He; try discriminate Hlt.
  - apply Z.compare_eq in He. subst e.
    assert (Hd53 : Zpos (digits2_pos m) = 53) by lia.
    rewrite digits2_pos_size in Hd53.
    pose proof (Pos.size_le m) as Hle.
    apply Pos2Z.pos_le_pos in Hle. rewrite Pos2Z.inj_pow, Hd53 in Hle.
    change (Z.pos m~0) with (2 * Z.pos m) in Hle.
    destruct (Pos.compare_cont Eq m 4503599627370496) eqn:Hcmp; try discriminate Hlt.
    apply (proj1 (Pos.compare_lt_iff m 4503599627370496)) in Hcmp.
    apply Pos2Z.pos_lt_pos in Hcmp.
    change (Z.pos 2 ^ 53) with 9007199254740992 in Hle. lia.
  - rewrite Z.compare_lt_iff in He. lia.
Qed.

(** [Math.floor(r * 400)] of a float [r] in [0, 1) is an integer from 0
    to 399. *)
Lemma floor_mul_400 r :
  unitFloat r = true → 0 ≤ Math_floor (SFmul prec emax r float_400) ≤ 399.
Proof.
  intros Hunit.
  destruct r as [s|s| |s m e].
  - cbn. lia.
  - unfold unitFloat in Hunit. destruct s; discriminate Hunit.
  - discriminate Hunit.
  - apply unitFloat_finite in Hunit as (-> & Hm & He).
    unfold float_400. cbn [SFmul xorb]. unfold binary_round_aux.
    set (P := Z.pos (m * 7036874417766400)).
    assert (HP : P = Z.pos m * 7036874417766400) by (unfold P; lia).
    assert (HP0 : 0 ≤ P) by lia.
    destruct (shr_fexp_exact P (e + -44) HP0) as (k1 & mrs1 & -> & Hk1 & Hs1).
    assert (Hk1' : 0 ≤ k1) by lia.
    pose proof (round_nearest_even_bound P k1 mrs1 HP0 Hk1' Hs1) as [HQ0 HQ].
    set (Q := round_nearest_even (shr_m mrs1) (loc_of_shr_record mrs1)) in *.
    destruct (shr_fexp_exact Q (e + -44 + k1) HQ0) as (k2 & mrs2 & -> & Hk2 & [Hm2 _]).
    assert (Hk2' : 0 ≤ k2) by lia.
    (* the first shift is by at most 53 *)
    assert (Hk1max : k1 ≤ 53).
    { assert (Zdigits2 P ≤ 106).
      { unfold P. cbn [Zdigits2]. apply digits2_pos_le; [lia|].
        fold P. rewrite HP.
        change (2 ^ 106) with (2 ^ 53 * 9007199254740992). nia. }
      rewrite Hk1. unfold fexp, emin, prec, emax. lia. }
    assert (Hp1 : 0 < 2 ^ k1) by (apply Z.pow_pos_nonneg; lia).
    assert (Hp2 : 0 < 2 ^ k2) by (apply Z.pow_pos_nonneg; lia).
    assert (Hp1max : 2 ^ k1 ≤ 2 ^ 53) by (apply Z.pow_le_mono_r; lia).
    assert (Hdiv : shr_m mrs2 * 2 ^ k2 ≤ Q).
    { rewrite Hm2. pose proof (Z.mul_div_le Q (2 ^ k2) Hp2). lia. }
    assert (Hm2pos : 0 ≤ shr_m mrs2) by (rewrite Hm2; apply Z.div_pos; lia).
    set (t := 44 - e).
    assert (Ht : 97 ≤ t) by (unfold t; lia).
    assert (Hpt : 2 ^ 97 ≤ 2 ^ t) by (apply Z.pow_le_mono_r; lia).
    (* the rounded product is below 400 *)
    assert (Hbelow : shr_m mrs2 * (2 ^ k1 * 2 ^ k2) < 400 * 2 ^ t).
    { change (2 ^ 53) with 9007199254740992 in *.
      change (2 ^ 97) with 158456325028528675187087900672 in *.
      nia. }
    set (e2 := e + -44 + k1 + k2).
    assert (Hfloor : 0 ≤ Z.shiftl (shr_m mrs2) e2 ≤ 399).
    { destruct (Z_le_gt_dec 0 e2) as [Hpos|Hneg].
      - rewrite Z.shiftl_mul_pow2 by lia.
        assert (Hsplit : 2 ^ k1 * 2 ^ k2 = 2 ^ e2 * 2 ^ t).
        { rewrite <- !Z.pow_add_r by (unfold e2, t; lia). f_equal. unfold e2, t. lia. }
        rewrite Hsplit in Hbelow.
        assert (0 < 2 ^ e2) by (apply Z.pow_pos_nonneg; lia).
        assert (0 < 2 ^ t) by (apply Z.pow_pos_nonneg; lia).
        split; [nia|]. nia.
      - rewrite Z.shiftl_div_pow2 by lia.
        assert (Hsplit : 2 ^ t = 2 ^ k1 * 2 ^ k2 * 2 ^ (- e2)).
        { rewrite <- !Z.pow_add_r by (unfold e2, t; lia). f_equal. unfold e2, t. lia. }
        rewrite Hsplit in Hbelow.
        assert (0 < 2 ^ (- e2)) by (apply Z.pow_pos_nonneg; lia).
        split; [apply Z.div_pos; lia|].
        assert (shr_m mrs2 / 2 ^ (- e2) < 400); [|lia].
        apply Z.div_lt_upper_bound; [lia|]. nia. }
    fold e2. destruct (shr_m mrs2) as [|m2|m2] eqn:Hshr.
    + cbn. lia.
    + destruct (e2 <=? emax - prec); [exact Hfloor|cbn; lia].
    + cbn. lia.
Qed.

Lemma waitMs_bounds r : unitFloat r = true → 100 ≤ waitMs r ≤ 499.
Proof.
  intros Hunit. unfold waitMs.
  pose proof (floor_mul_400 r Hunit). lia.
Qed.

Lemma contextReady_timers w : timers (contextReady w) = timers w.
Proof. unfold contextReady. by destruct (rendering w), (contextMemo w). Qed.

Lemma contextReady_randoms w :
  randoms (contextReady w) (randomCalls (contextReady w)) = randoms w (randomCalls w).
Proof. unfold contextReady. by destruct (rendering w), (contextMemo w). Qed.

(** ** Sample runs *)

Example float_400_valid : valid_binary prec emax float_400 = true.
Proof. reflexivity. Qed.

Example waitMs_half : waitMs float_half = 300.
Proof. reflexivity. Qed.

Example waitMs_largest : waitMs (S754_finite false 9007199254740991 (-53)) = 499.
Proof. reflexivity. Qed.

Example publicAction_answers :
  fst (invoke (publicAction false) hello JNull signedOut) = inl (JString "hello").
Proof. reflexivity. Qed.

Example publicAction_dev_run :
  let w := snd (invoke (publicAction true) hello JNull signedIn) in
  timers w = [300] ∧ logged w = [LogInfo 0 (JString "hello")] ∧ authCalls w = 1%nat.
Proof. repeat split. Qed.

Example protectedAction_signed_out :
  fst (invoke (protectedAction false) hello JNull signedOut)
  = inr (ThrowTRPC (newTRPCError UNAUTHORIZED)).
Proof. reflexivity. Qed.

Example protectedBoardAction_own_board :
  fst (invoke (protectedBoardAction false) hello
         (JObject [("boardId", JString "b1")]) signedIn)
  = inl (JString "hello").
Proof. reflexivity. Qed.

Example protectedBoardAction_foreign_board :
  fst (invoke (protectedBoardAction false) hello
         (JObject [("boardId", JString "b2")]) signedIn)
  = inr (ThrowTRPC (newTRPCError FORBIDDEN)).
Proof. reflexivity. Qed.

Example protectedBoardAction_no_input :
  ∃ e, fst (invoke (protectedBoardAction false) hello JNull signedIn)
       = inr (ThrowTRPC e) ∧ code e = BAD_REQUEST.
Proof. by eexists. Qed.

Example cachedDataLayer_stores :
  let w := snd (invoke (cachedDataLayer false joinKey "boards") hello JNull signedIn) in
  tags <$> dataCache w !! "u1" = Some ["boards"].
Proof. reflexivity. Qed.

(** ** The properties of the specification *)

(** C1. When session resolution gives the authentication step no session,
    a procedure built on [protectedAction] fails with [UNAUTHORIZED], and
    it ends in one and the same world whatever steps and handler follow:
    none of them has run, and no handler has been started.  When it gives
    a session, the steps that follow run in a context whose [user] is that
    session, and their outcome is the outcome of the chain. *)
Theorem protectedAction_requires_session isDev opts w :
  (sessionAtAuthStep w = None →
   ∃ w',
     resolverRuns w' = resolverRuns w ∧
     ∀ rest,
       callRecursive (middlewares (protectedAction isDev) ++ rest) opts w
       = (MErr (newTRPCError UNAUTHORIZED), w'))
  ∧
  (∀ u, sessionAtAuthStep w = Some u →
   let c := <["user" := VUser u]> (baseCtx opts w) in
   let w1 := authenticated isDev w in
   c !! "user" = Some (VUser u) ∧
   ∀ rest,
     callRecursive (middlewares (protectedAction isDev) ++ rest) opts w
     = let (res, w2) :=
         callRecursive rest (mkCallOpts c (input opts) (rawInput opts)) w1 in
       (res, set_logged (logged w2 ++ [outcomeRecord (clock w2 - clock w1) res]) w2)).
Proof.
  unfold sessionAtAuthStep. split.
  - intros Hnone.
    exists (snd (finish (clock (authenticated isDev w))
                   (MErr (newTRPCError UNAUTHORIZED)) (authenticated isDev w))).
    split.
    + unfold authenticated; cbn.
      by rewrite delayed_resolverRuns, contextReady_resolverRuns.
    + intros rest.
      rewrite protectedAction_middlewares. cbn [app].
      rewrite nextProc_chain. cbn zeta.
      rewrite protectedAction_chain.
      rewrite delayed_sessions, delayed_authCalls, contextReady_sessions, Hnone.
      reflexivity.
  - intros u Hsome. cbn zeta.
    split; [apply lookup_insert_eq|].
    intros rest.
    rewrite protectedAction_middlewares. cbn [app].
    rewrite nextProc_chain. cbn zeta.
    rewrite protectedAction_chain.
    rewrite delayed_sessions, delayed_authCalls, contextReady_sessions, Hsome.
    reflexivity.
Qed.

(** C2. In a procedure built on [protectedBoardAction], called by user [u]
    with an input whose [boardId] is [boardId], the chain fails with
    [FORBIDDEN] without running what follows exactly when no board of the
    table has owner [u] and identifier [boardId]; when there is such a
    board, the steps that follow run in a context whose [board] is one. *)
Theorem protectedBoardAction_owner_check isDev opts w u fields boardId :
  sessionAtAuthStep w = Some u →
  rawInput opts = JObject fields →
  assoc "boardId" fields = Some (JString boardId) →
  let owned board :=
    Board.ownerId board = User.id u ∧ Board.id board = boardId in
  let chain rest :=
    callRecursive (middlewares (protectedBoardAction isDev) ++ rest) opts w in
  ((∀ board, board ∈ boards w → ¬ owned board) ↔
   (∃ w', ∀ rest, chain rest = (MErr (newTRPCError FORBIDDEN), w')))
  ∧
  ((∃ board, board ∈ boards w ∧ owned board) →
   ∃ board c i w1,
     board ∈ boards w ∧ owned board ∧
     c !! "board" = Some (VBoard board) ∧
     ∀ rest,
       chain rest
       = let (res, w2) := callRecursive rest (mkCallOpts c i (rawInput opts)) w1 in
         (res, set_logged (logged w2 ++ [outcomeRecord (clock w2 - clock w1) res]) w2)).
Proof.
  intros Hsession Hraw Hid owned chain.
  unfold sessionAtAuthStep in Hsession.
  set (w1 := set_authCalls (S (authCalls (contextReady w))) (delayed isDev (contextReady w))).
  set (c := <["user" := VUser u]> (baseCtx opts w)).
  destruct (combineInput_boardId (input opts) boardId) as (fields' & Hcombine & Hid').
  assert (Hchain : ∀ rest,
    chain rest =
      match List.find (where_ (User.id u) boardId) (boards w) with
      | None =>
          (MErr (newTRPCError FORBIDDEN),
           set_logged (logged w1 ++ [outcomeRecord (clock w1 - clock w1)
                                       (MErr (newTRPCError FORBIDDEN))]) w1)
      | Some board =>
          let (res, w2) :=
            callRecursive rest
              (mkCallOpts (spread c {[ "board" := VBoard board ]})
                          (JObject fields') (rawInput opts)) w1 in
          (res, set_logged (logged w2 ++ [outcomeRecord (clock w2 - clock w1) res]) w2)
      end).
  { intros rest. unfold chain.
    rewrite protectedBoardAction_middlewares. cbn [app].
    rewrite nextProc_chain. cbn zeta.
    rewrite protectedAction_chain.
    rewrite delayed_sessions, delayed_authCalls, contextReady_sessions, Hsession.
    rewrite inputMiddleware_chain. cbn [rawInput input ctx].
    rewrite Hraw. cbn [boardIdSchema]. rewrite Hid. rewrite Hcombine.
    erewrite protectedBoardAction_chain;
      [|cbn [ctx]; apply lookup_insert_eq|reflexivity|exact Hid'].
    fold w1. fold (baseCtx opts w). fold c.
    replace (boards w1) with (boards w)
      by (unfold w1; cbn; by rewrite delayed_boards, contextReady_boards).
    destruct (List.find _ (boards w)); reflexivity. }
  split; [split|].
  - intros Hnone. eexists. intros rest. rewrite Hchain.
    destruct (List.find _ (boards w)) as [board|] eqn:Hfind; [|reflexivity].
    apply find_some in Hfind as [Hin Hwhere].
    apply where_spec in Hwhere. apply list_elem_of_In in Hin.
    destruct (Hnone board Hin Hwhere).
  - intros [w' Hshort] board Hin Howned.
    specialize (Hshort [answer JNull]). rewrite Hchain in Hshort.
    destruct (List.find _ (boards w)) as [found|] eqn:Hfind.
    + cbn in Hshort. discriminate Hshort.
    + apply list_elem_of_In in Hin.
      pose proof (find_none _ _ Hfind board Hin) as Hfalse.
      apply where_spec in Howned. congruence.
  - intros (board & Hin & Howned).
    destruct (List.find (where_ (User.id u) boardId) (boards w)) as [found|] eqn:Hfind.
    + pose proof Hfind as Hfound.
      apply find_some in Hfound as [Hfin Hwhere].
      apply where_spec in Hwhere. apply list_elem_of_In in Hfin.
      exists found, (spread c {[ "board" := VBoard found ]}), (JObject fields'), w1.
      split; [exact Hfin|]. split; [exact Hwhere|].
      split; [rewrite spread_lookup; by rewrite lookup_singleton_eq|].
      intros rest. rewrite Hchain. reflexivity.
    + apply list_elem_of_In in Hin.
      pose proof (find_none _ _ Hfind board Hin) as Hfalse.
      apply where_spec in Howned. congruence.
Qed.

(** C3. In a procedure built on [cachedDataLayer cacheTag], called by user
    [u]: when the cache holds nothing under the key of [u] and [cacheTag],
    what follows the caching step runs once, and a successful result of it
    is the result of the chain and is stored under that key with the tag
    (a handler given to the procedure is started exactly once); when the
    cache holds an entry there, the stored result is returned and nothing
    that follows the caching step runs (no handler is started). *)
Theorem cachedDataLayer_miss_and_hit isDev cacheKey cacheTag opts w u :
  sessionAtAuthStep w = Some u →
  let key := cacheKey [User.id u] [cacheTag] in
  let chain rest :=
    callRecursive (middlewares (cachedDataLayer isDev cacheKey cacheTag) ++ rest) opts w in
  let called resolver raw :=
    invoke (cachedDataLayer isDev cacheKey cacheTag) resolver raw w in
  let c := <["user" := VUser u]> (baseCtx opts w) in
  let w1 := authenticated isDev w in
  (dataCache w !! key = None →
   (∀ rest,
      chain rest =
        let (res, w2) :=
          callRecursive rest (mkCallOpts c (input opts) (rawInput opts)) w1 in
        match res with
        | MOk _ _ =>
            finish (clock w1) res
              (set_dataCache (<[key := mkCacheEntry res [cacheTag]]> (dataCache w2)) w2)
        | MErr _ =>
            finish (clock w1) (MErr (newTRPCError INTERNAL_SERVER_ERROR)) w2
        end)
   ∧
   (∀ resolver raw,
      (∀ o w0, resolverRuns (snd (resolver o w0)) = resolverRuns w0) →
      resolverRuns (snd (called resolver raw)) = S (resolverRuns w)))
  ∧
  (∀ entry, dataCache w !! key = Some entry →
   (∃ w', ∀ rest, chain rest = (value entry, w'))
   ∧
   (∀ resolver raw, resolverRuns (snd (called resolver raw)) = resolverRuns w)).
Proof.
  intros Hsession key chain called c w1.
  assert (Hcache : dataCache (authenticated isDev w) = dataCache w).
  { unfold authenticated; cbn. by rewrite delayed_dataCache, contextReady_dataCache. }
  assert (Hruns : resolverRuns (authenticated isDev w) = resolverRuns w).
  { unfold authenticated; cbn. by rewrite delayed_resolverRuns, contextReady_resolverRuns. }
  assert (Hchain : ∀ opts rest,
    callRecursive (middlewares (cachedDataLayer isDev cacheKey cacheTag) ++ rest) opts w =
      let w1 := authenticated isDev w in
      let o1 := mkCallOpts (<["user" := VUser u]> (baseCtx opts w))
                           (input opts) (rawInput opts) in
      match dataCache w !! key with
      | Some entry => finish (clock w1) (value entry) w1
      | None =>
          let (res, w2) := callRecursive rest o1 w1 in
          match res with
          | MOk _ _ =>
              finish (clock w1) res
                (set_dataCache (<[key := mkCacheEntry res [cacheTag]]> (dataCache w2)) w2)
          | MErr _ =>
              finish (clock w1) (MErr (newTRPCError INTERNAL_SERVER_ERROR)) w2
          end
      end).
  { intros opts' rest.
    rewrite cachedDataLayer_middlewares. cbn [app].
    rewrite (protectedAction_run _ _ _ _ u Hsession). cbn zeta.
    rewrite (cachedDataLayer_chain _ _ _ _ _ u) by (cbn [ctx]; apply lookup_insert_eq).
    rewrite Hcache. fold key.
    destruct (dataCache w !! key) as [entry|]; [reflexivity|].
    destruct (callRecursive rest _ _) as [[data c'|e] w2]; reflexivity. }
  split.
  - intros Hmiss. split.
    + intros rest. unfold chain. rewrite Hchain, Hmiss. reflexivity.
    + intros resolver raw Hframe. unfold called, invoke.
      rewrite Hchain, Hmiss. cbn zeta.
      rewrite resolverMiddleware_chain.
      match goal with |- context [resolver ?o ?w0] =>
        pose proof (Hframe o w0) as Hr; destruct (resolver o w0) as [[data|cause] w2]
      end; cbn [snd] in Hr; unfold finish;
        cbn [snd set_logged set_dataCache resolverRuns];
        rewrite Hr; cbn [set_resolverRuns resolverRuns]; by rewrite Hruns.
  - intros entry Hhit. split.
    + eexists. intros rest. unfold chain. rewrite Hchain, Hhit. reflexivity.
    + intros resolver raw. unfold called, invoke.
      rewrite Hchain, Hhit. cbn zeta.
      destruct (value entry); unfold finish; cbn [snd set_logged resolverRuns];
        exact Hruns.
Qed.

(** C4. In a procedure built on [cachedDataLayer cacheTag], whenever what
    follows the caching step fails, with whatever error, the chain fails
    with the one error [new TRPCError({ code: "INTERNAL_SERVER_ERROR" })]:
    nothing of the original error is kept, and a code other than the
    internal one is never surfaced.  So a call of the procedure throws
    that error whenever its handler throws. *)
Theorem cachedDataLayer_failure_is_internal isDev cacheKey cacheTag opts w u :
  sessionAtAuthStep w = Some u →
  dataCache w !! cacheKey [User.id u] [cacheTag] = None →
  let internal := newTRPCError INTERNAL_SERVER_ERROR in
  let c := <["user" := VUser u]> (baseCtx opts w) in
  let w1 := authenticated isDev w in
  (∀ rest e w2,
     callRecursive rest (mkCallOpts c (input opts) (rawInput opts)) w1 = (MErr e, w2) →
     callRecursive (middlewares (cachedDataLayer isDev cacheKey cacheTag) ++ rest) opts w
     = finish (clock w1) (MErr internal) w2
     ∧ (code e ≠ INTERNAL_SERVER_ERROR → code internal ≠ code e))
  ∧
  (∀ resolver raw cause,
     (∀ o w0, fst (resolver o w0) = inr cause) →
     fst (invoke (cachedDataLayer isDev cacheKey cacheTag) resolver raw w)
     = inr (ThrowTRPC internal))
  ∧
  message internal = "INTERNAL_SERVER_ERROR" ∧ cause internal = None.
Proof.
  intros Hsession Hmiss internal c w1.
  assert (Hcache : dataCache (authenticated isDev w) = dataCache w).
  { unfold authenticated; cbn. by rewrite delayed_dataCache, contextReady_dataCache. }
  assert (Hchain : ∀ opts rest,
    callRecursive (middlewares (cachedDataLayer isDev cacheKey cacheTag) ++ rest) opts w =
      match callRecursive rest
              (mkCallOpts (<["user" := VUser u]> (baseCtx opts w))
                          (input opts) (rawInput opts)) w1 with
      | (MOk data c', w2) =>
          finish (clock w1) (MOk data c')
            (set_dataCache
               (<[cacheKey [User.id u] [cacheTag] := mkCacheEntry (MOk data c') [cacheTag]]>
                  (dataCache w2)) w2)
      | (MErr _, w2) => finish (clock w1) (MErr internal) w2
      end).
  { intros opts' rest.
    rewrite cachedDataLayer_middlewares. cbn [app].
    rewrite (protectedAction_run _ _ _ _ u Hsession). cbn zeta.
    rewrite (cachedDataLayer_chain _ _ _ _ _ u) by (cbn [ctx]; apply lookup_insert_eq).
    rewrite Hcache, Hmiss.
    destruct (callRecursive rest _ _) as [[data c'|e] w2]; reflexivity. }
  split; [|split; [|split; reflexivity]].
  - intros rest e w2 Hfail. split.
    + rewrite Hchain. fold c. rewrite Hfail. reflexivity.
    + intros Hcode Heq. apply Hcode. symmetry. exact Heq.
  - intros resolver raw cause Hthrows. unfold invoke.
    rewrite Hchain.
    rewrite resolverMiddleware_chain.
    match goal with |- context [resolver ?o ?w0] =>
      pose proof (Hthrows o w0) as Hr; destruct (resolver o w0) as [[data|thrown] w2]
    end; cbn in Hr; [discriminate Hr|reflexivity].
Qed.

(** C9. The entry the caching step consults is found by the user's id and
    the tag alone.  Let a first call by user [u] find the cache empty
    there and succeed with a result.  Then a later call under the same tag
    by a user with the same id, in a world whose cache still holds what
    the first call left there, returns that same result, whatever its
    input and whatever steps and handler follow the caching step. *)
Theorem cachedDataLayer_ignores_input isDev cacheKey cacheTag
    opts1 rest1 w u data c wA opts2 rest2 w' u' :
  let chain rest opts w :=
    callRecursive (middlewares (cachedDataLayer isDev cacheKey cacheTag) ++ rest) opts w in
  let key := cacheKey [User.id u] [cacheTag] in
  sessionAtAuthStep w = Some u →
  dataCache w !! key = None →
  chain rest1 opts1 w = (MOk data c, wA) →
  sessionAtAuthStep w' = Some u' →
  User.id u' = User.id u →
  dataCache w' !! key = dataCache wA !! key →
  fst (chain rest2 opts2 w') = MOk data c.
Proof.
  intros chain key Hsession Hmiss Hfirst Hsession' Hid Hkept.
  assert (Hcache : ∀ w, dataCache (authenticated isDev w) = dataCache w).
  { intros w0. unfold authenticated; cbn.
    by rewrite delayed_dataCache, contextReady_dataCache. }
  assert (Hstored : dataCache wA !! key = Some (mkCacheEntry (MOk data c) [cacheTag])).
  { unfold chain in Hfirst.
    rewrite cachedDataLayer_middlewares in Hfirst. cbn [app] in Hfirst.
    rewrite (protectedAction_run _ _ _ _ u Hsession) in Hfirst. cbn zeta in Hfirst.
    rewrite (cachedDataLayer_chain _ _ _ _ _ u) in Hfirst
      by (cbn [ctx]; apply lookup_insert_eq).
    rewrite Hcache in Hfirst. fold key in Hfirst. rewrite Hmiss in Hfirst.
    destruct (callRecursive rest1 _ _) as [[data1 c1|e] w2];
      unfold finish in Hfirst; inversion Hfirst; subst.
    cbn. apply lookup_insert_eq. }
  unfold chain.
  rewrite cachedDataLayer_middlewares. cbn [app].
  rewrite (protectedAction_run _ _ _ _ u' Hsession'). cbn zeta.
  rewrite (cachedDataLayer_chain _ _ _ _ _ u') by (cbn [ctx]; apply lookup_insert_eq).
  rewrite Hcache, Hid. fold key. rewrite Hkept, Hstored. reflexivity.
Qed.

(** C5, as the specification words it, fails outside a render: two calls
    of [createContext] in one request, with nothing in between, make two
    session lookups, and when the session changes hands in between they
    return different contexts. *)
Lemma createContext_repeats_outside_render :
  let w := set_rendering false changingSessions in
  contextMemo w = None ∧
  sameRequest [fun w => w; fun w => w] ∧
  let '(results, lookups, _) := readContexts [fun w => w; fun w => w] w in
  lookups = 2%nat ∧
  ¬ (lookups ≤ 1)%nat ∧
  results = [inl {| log := console; user := Some alice |};
             inl {| log := console; user := Some bob |}].
Proof.
  split; [reflexivity|]. split; [by repeat constructor|].
  vm_compute. split; [reflexivity|]. split; [lia|reflexivity].
Qed.

(** C5. A request starts with an empty memo table, and the steps between
    the calls of [createContext] leave the table alone and neither enter
    nor leave a render.  Every call returns a context.  Inside a render of
    Server Components the body runs at most once, however often
    [createContext] is called: the calls together make at most one session
    lookup, and every call returns the context the first one built.
    Outside a render nothing is remembered: every call makes a session
    lookup of its own. *)
Theorem createContext_once_per_request between w :
  contextMemo w = None →
  sameRequest between →
  let '(results, lookups, _) := readContexts between w in
  length results = length between ∧
  if rendering w then
    (lookups ≤ 1)%nat ∧
    ∀ r, r ∈ results → r = inl {| log := console; user := sessions w (authCalls w) |}
  else lookups = length between.
Proof.
  intros Hmemo Hsame.
  destruct (rendering w) eqn:Hrender.
  - destruct Hsame as [|f fs Hf Hfs].
    + cbn. split; [reflexivity|]. split; [lia|]. intros r Hr. inversion Hr.
    + cbn [readContexts]. rewrite createContext_run.
      unfold contextReady, currentContext, freshContext. rewrite Hrender, Hmemo.
      set (c := {| log := console; user := sessions w (authCalls w) |}).
      set (w1 := set_contextMemo (Some c) (set_authCalls (S (authCalls w)) w)).
      destruct (Hf w1) as [Hfmemo Hfrender].
      destruct (readContexts_memo fs (f w1) c Hfs) as [w' Hrest];
        [by rewrite Hfrender|by rewrite Hfmemo|].
      rewrite Hrest. cbn. split; [by rewrite length_replicate|]. split; [lia|].
      intros r Hr. apply elem_of_cons in Hr as [->|Hr]; [reflexivity|].
      by apply elem_of_replicate in Hr as [-> _].
  - destruct (readContexts_outside between w Hsame Hrender)
      as (results & w' & Hrun & Hlen).
    rewrite Hrun. by split.
Qed.

(** C7. Every exported variant starts with the base step.  In any chain
    built on one, what follows the base step runs from a world [w1] to a
    world [w2] with a result; the base step then writes exactly one record
    to the console, after everything that was written before, holding
    [clock w2 - clock w1] and the payload at level info for a success, or
    the error at level error for a failure; and the chain returns that
    result as it is. *)
Theorem nextProc_logs_outcome isDev cacheKey cacheTag p rest opts w :
  p ∈ variants isDev cacheKey cacheTag →
  let w1 := delayed isDev (contextReady w) in
  let o1 := mkCallOpts (baseCtx opts w) (input opts) (rawInput opts) in
  ∃ tail,
    middlewares p = nextProc_step isDev :: tail ∧
    logged w1 = logged w ∧
    let (res, w2) := callRecursive (tail ++ rest) o1 w1 in
    callRecursive (middlewares p ++ rest) opts w
    = (res,
       set_logged
         (logged w2 ++
            [match res with
             | MOk data _ => LogInfo (clock w2 - clock w1) data
             | MErr error => LogError (clock w2 - clock w1) error
             end]) w2).
Proof.
  intros Hp w1 o1.
  assert (Htail : ∃ tail, middlewares p = nextProc_step isDev :: tail).
  { unfold variants in Hp.
    repeat (apply elem_of_cons in Hp as [->|Hp]); [..|inversion Hp];
      eexists; reflexivity. }
  destruct Htail as [tail Htail]. exists tail.
  split; [exact Htail|]. split.
  { unfold w1. by rewrite delayed_logged, contextReady_logged. }
  rewrite Htail. cbn [app]. rewrite nextProc_chain. cbn zeta.
  fold w1. fold (baseCtx opts w). fold o1.
  destruct (callRecursive (tail ++ rest) o1 w1) as [[data c|e] w2]; reflexivity.
Qed.

(** C10 as stated fails: with the answers of [changingSessions] the base
    step stores the first user in the context and the authentication step
    passes on the second. *)
Lemma protectedAction_user_differs_from_base :
  let opts := initialOpts JNull in
  ∃ stored injected,
    fst (callRecursive [nextProc_step false; answer JNull] opts changingSessions)
    = MOk JNull stored ∧
    fst (callRecursive [nextProc_step false; protectedAction_step; answer JNull]
           opts changingSessions)
    = MOk JNull injected ∧
    stored !! "user" = Some (VUser alice) ∧
    injected !! "user" = Some (VUser bob) ∧
    injected !! "user" ≠ stored !! "user".
Proof.
  eexists _, _. split; [reflexivity|]. split; [reflexivity|].
  split; [reflexivity|]. split; [reflexivity|].
  intros Heq. vm_compute in Heq. discriminate Heq.
Qed.

(** C10, amended.  The authentication step asks session resolution itself:
    whatever [user] the context it receives holds, it makes one more call
    and passes on the answer of that call.  In a request, the user it
    passes on is the session the base step stored exactly when session
    resolution gives its second call the answer it gave the first. *)
Theorem protectedAction_resolves_again isDev opts w d injected :
  contextMemo w = None →
  fst (callRecursive [nextProc_step isDev; protectedAction_step; answer d] opts w)
  = MOk d injected →
  (∀ options w0,
     callRecursive [protectedAction_step; answer d] options w0
     = (match sessions w0 (authCalls w0) with
        | Some u => MOk d (<["user" := VUser u]> (ctx options))
        | None => MErr (newTRPCError UNAUTHORIZED)
        end,
        set_authCalls (S (authCalls w0)) w0))
  ∧
  injected !! "user" = Some (sessionValue (sessions w (S (authCalls w))))
  ∧
  ∃ stored,
    fst (callRecursive [nextProc_step isDev; answer d] opts w) = MOk d stored ∧
    (injected !! "user" = stored !! "user" ↔
     sessions w (S (authCalls w)) = sessions w (authCalls w)).
Proof.
  intros Hmemo Hrun.
  assert (Hready : authCalls (contextReady w) = S (authCalls w)).
  { unfold contextReady. rewrite Hmemo. by destruct (rendering w). }
  assert (Hcurrent : currentContext w = {| log := console; user := sessions w (authCalls w) |}).
  { unfold currentContext, freshContext. rewrite Hmemo. by destruct (rendering w). }
  rewrite nextProc_chain in Hrun. cbn zeta in Hrun.
  rewrite protectedAction_chain in Hrun.
  rewrite delayed_sessions, delayed_authCalls, contextReady_sessions, Hready in Hrun.
  split; [|split].
  - intros options w0. rewrite protectedAction_chain.
    destruct (sessions w0 (authCalls w0)) as [u0|]; reflexivity.
  - destruct (sessions w (S (authCalls w))) as [u|]; [|discriminate Hrun].
    cbn in Hrun. injection Hrun as <-. apply lookup_insert_eq.
  - exists (baseCtx opts w). split.
    { rewrite nextProc_chain. reflexivity. }
    destruct (sessions w (S (authCalls w))) as [u|] eqn:Hu; [|discriminate Hrun].
    cbn in Hrun. injection Hrun as <-.
    unfold baseCtx.
    rewrite lookup_insert_eq, spread_lookup, Hcurrent.
    unfold contextFields; cbn [log user].
    rewrite lookup_insert_ne by done. rewrite lookup_singleton_eq.
    split.
    + intros [= Heq]. destruct (sessions w (authCalls w)); [|discriminate Heq].
      cbn in Heq. by injection Heq as <-.
    + by intros <-.
Qed.

(** C6 as stated fails: in the request of [changingSessions] the
    authentication step receives a context whose [user] is the first user
    and passes on one whose [user] is the second. *)
Lemma protectedAction_step_replaces_user :
  ∃ received passed,
    fst (callRecursive [nextProc_step false; answer JNull]
           (initialOpts JNull) changingSessions)
    = MOk JNull received ∧
    fst (callRecursive [nextProc_step false; protectedAction_step; answer JNull]
           (initialOpts JNull) changingSessions)
    = MOk JNull passed ∧
    ¬ keepsFields received passed.
Proof.
  eexists _, _. split; [reflexivity|]. split; [reflexivity|].
  intros Hkeeps.
  specialize (Hkeeps "user" (VUser alice) eq_refl).
  vm_compute in Hkeeps. discriminate Hkeeps.
Qed.

(** C6, amended.  A step that calls its continuation passes on every field
    of the context it received, and leaves unchanged every field it does
    not set itself: the base step sets [log] and [user], the
    authentication step sets [user] (to the session it resolved), the
    board step sets [board], the input parser and the caching step set
    nothing.  In a procedure built on [protectedBoardAction], the board
    step, which hands only [board] to its continuation, passes on every
    field it received unchanged, with [board] added. *)
Theorem steps_extend_context isDev cacheKey cacheTag parse opts w d passed :
  (fst (callRecursive [nextProc_step isDev; answer d] opts w) = MOk d passed →
   extendsBy ["log"; "user"] (ctx opts) passed)
  ∧
  (fst (callRecursive [protectedAction_step; answer d] opts w) = MOk d passed →
   extendsBy ["user"] (ctx opts) passed)
  ∧
  (fst (callRecursive [inputMiddleware parse; answer d] opts w) = MOk d passed →
   passed = ctx opts)
  ∧
  (fst (callRecursive [protectedBoardAction_step; answer d] opts w) = MOk d passed →
   extendsBy ["board"] (ctx opts) passed ∧
   (ctx opts !! "board" = None → keepsFields (ctx opts) passed))
  ∧
  (∀ u,
     ctx opts !! "user" = Some (VUser u) →
     dataCache w !! cacheKey [User.id u] [cacheTag] = None →
     fst (callRecursive [cachedDataLayer_step cacheKey cacheTag; answer d] opts w)
     = MOk d passed →
     passed = ctx opts)
  ∧
  (ctx opts !! "board" = None →
   fst (callRecursive (middlewares (protectedBoardAction isDev) ++ [answer d]) opts w)
   = MOk d passed →
   ∃ received board,
     fst (callRecursive
            [nextProc_step isDev; protectedAction_step;
             inputMiddleware boardIdSchema; answer d] opts w)
     = MOk d received ∧
     keepsFields received passed ∧
     received !! "board" = None ∧
     passed = <["board" := VBoard board]> received).
Proof.
  split; [|split; [|split; [|split; [|split]]]].
  - rewrite nextProc_chain. cbn. intros [= <-].
    apply extendsBy_spread, contextFields_other.
  - rewrite protectedAction_chain.
    destruct (sessions w (authCalls w)) as [u|]; [|discriminate].
    cbn. intros [= <-]. apply extendsBy_insert.
  - rewrite inputMiddleware_chain.
    destruct (parse (rawInput opts)); [|discriminate].
    cbn. by intros [= <-].
  - rewrite callRecursive_cons.
    unfold protectedBoardAction_step, bind, ctx_user_id, input_boardId.
    destruct (ctx opts !! "user") as [[]|]; cbn; try discriminate.
    destruct (input opts); cbn; try discriminate.
    destruct (assoc "boardId" fields) as [[]|]; cbn; try discriminate.
    destruct (List.find _ _) as [board|]; cbn; [|discriminate].
    intros [= <-]. split.
    + apply extendsBy_spread.
      intros k Hk. apply lookup_singleton_ne. intros <-. apply Hk. set_solver.
    + intros Hfresh. apply keepsFields_spread_fresh.
      intros k [v Hk]. apply lookup_singleton_Some in Hk as [<- _]. exact Hfresh.
  - intros u Huser Hmiss.
    rewrite (cachedDataLayer_chain _ _ _ _ _ u Huser), Hmiss.
    cbn. by intros [= <-].
  - intros Hfresh. rewrite protectedBoardAction_middlewares. cbn [app].
    rewrite !nextProc_chain. cbn zeta.
    rewrite !protectedAction_chain.
    destruct (sessions _ _) as [u|]; [|discriminate].
    rewrite !inputMiddleware_chain. cbn [rawInput input ctx].
    destruct (boardIdSchema (rawInput opts)) as [parsed|] eqn:Hparsed; [|discriminate].
    assert (∃ s, parsed = JObject [("boardId", JString s)]) as [s ->].
    { unfold boardIdSchema in Hparsed.
      destruct (rawInput opts); try discriminate.
      destruct (assoc "boardId" fields) as [[]|]; try discriminate.
      injection Hparsed as <-. by eexists. }
    destruct (combineInput_boardId (input opts) s) as (fields' & Hcombine & Hid').
    rewrite Hcombine.
    erewrite protectedBoardAction_chain;
      [|cbn [ctx]; apply lookup_insert_eq|reflexivity|exact Hid'].
    destruct (List.find _ _) as [board|]; [|discriminate].
    cbn. intros [= <-].
    set (received := <["user" := VUser u]> (spread (ctx opts) (contextFields (currentContext w)))).
    assert (Hnoboard : received !! "board" = None).
    { unfold received. rewrite lookup_insert_ne by done.
      rewrite spread_lookup, contextFields_other, Hfresh; [done|].
      rewrite !not_elem_of_cons. repeat split; [done..|apply not_elem_of_nil]. }
    exists received, board. split; [reflexivity|]. split; [|split; [exact Hnoboard|]].
    + apply keepsFields_spread_fresh.
      intros k [v Hk]. apply lookup_singleton_Some in Hk as [<- _]. exact Hnoboard.
    + unfold spread. by rewrite <- insert_union_singleton_l.
Qed.


(** C8. What follows the base step starts in a world [w1] in which a timer
    has been awaited since the call began exactly when [isDev] is set.
    Outside development mode no timer is set.  In development mode, for a
    draw of [Math.random()] in [0, 1), one timer is set, for a whole
    number of milliseconds from 100 to 499. *)
Theorem nextProc_delay_in_dev isDev opts w :
  let w1 := delayed isDev (contextReady w) in
  (∀ rest,
     callRecursive (nextProc_step isDev :: rest) opts w
     = let (res, w2) :=
         callRecursive rest
           (mkCallOpts (baseCtx opts w) (input opts) (rawInput opts)) w1 in
       finish (clock w1) res w2)
  ∧ (timers w1 ≠ timers w ↔ isDev = true)
  ∧ (isDev = false → timers w1 = timers w)
  ∧ (isDev = true →
     unitFloat (randoms w (randomCalls w)) = true →
     ∃ ms, timers w1 = (timers w ++ [ms])%list ∧ 100 ≤ ms ≤ 499).
Proof.
  intros w1. split; [|split; [|split]].
  - intros rest. rewrite nextProc_chain. reflexivity.
  - unfold w1. destruct isDev; cbn [delayed].
    + cbn. rewrite contextReady_timers. split; [done|]. intros _ Heq.
      apply (f_equal length) in Heq. rewrite length_app in Heq. cbn in Heq. lia.
    + rewrite contextReady_timers. split; [done|discriminate].
  - intros ->. unfold w1. cbn [delayed]. apply contextReady_timers.
  - intros -> Hunit. unfold w1. cbn [delayed]. cbn.
    rewrite contextReady_timers, contextReady_randoms.
    exists (waitMs (randoms w (randomCalls w))).
    split; [reflexivity|]. by apply waitMs_bounds.
Qed.

(** ** The properties at concrete requests *)

(** C1 on two requests: nobody is signed in; the first user is. *)
Lemma protectedAction_requires_session_witness :
  (∃ w',
     resolverRuns w' = resolverRuns signedOut ∧
     ∀ rest,
       callRecursive (middlewares (protectedAction true) ++ rest)
         (initialOpts JNull) signedOut
       = (MErr (newTRPCError UNAUTHORIZED), w'))
  ∧
  (let c := <["user" := VUser alice]> (baseCtx (initialOpts JNull) signedIn) in
   let w1 := authenticated true signedIn in
   c !! "user" = Some (VUser alice) ∧
   ∀ rest,
     callRecursive (middlewares (protectedAction true) ++ rest)
       (initialOpts JNull) signedIn
     = let (res, w2) := callRecursive rest (mkCallOpts c JNull JNull) w1 in
       (res, set_logged (logged w2 ++ [outcomeRecord (clock w2 - clock w1) res]) w2)).
Proof.
  split.
  - apply (proj1 (protectedAction_requires_session true (initialOpts JNull) signedOut)).
    reflexivity.
  - apply (proj2 (protectedAction_requires_session true (initialOpts JNull) signedIn) alice).
    reflexivity.
Defined.

(** C2 on two requests of the first user: for the board of the second
    user, and for her own. *)
Lemma protectedBoardAction_owner_check_witness :
  (∃ w', ∀ rest,
     callRecursive (middlewares (protectedBoardAction false) ++ rest)
       (initialOpts (JObject [("boardId", JString "b2")])) signedIn
     = (MErr (newTRPCError FORBIDDEN), w'))
  ∧
  (∃ board c i w1,
     board ∈ boards signedIn ∧
     (Board.ownerId board = User.id alice ∧ Board.id board = "b1") ∧
     c !! "board" = Some (VBoard board) ∧
     ∀ rest,
       callRecursive (middlewares (protectedBoardAction false) ++ rest)
         (initialOpts (JObject [("boardId", JString "b1")])) signedIn
       = let (res, w2) :=
           callRecursive rest
             (mkCallOpts c i (JObject [("boardId", JString "b1")])) w1 in
         (res, set_logged (logged w2 ++ [outcomeRecord (clock w2 - clock w1) res]) w2)).
Proof.
  split.
  - apply (proj1 (protectedBoardAction_owner_check false
                    (initialOpts (JObject [("boardId", JString "b2")])) signedIn alice
                    [("boardId", JString "b2")] "b2" eq_refl eq_refl eq_refl)).
    intros board Hin [Howner Hid].
    apply elem_of_cons in Hin as [->|Hin]; [discriminate Hid|].
    apply elem_of_cons in Hin as [->|Hin]; [discriminate Howner|].
    by apply elem_of_nil in Hin.
  - apply (proj2 (protectedBoardAction_owner_check false
                    (initialOpts (JObject [("boardId", JString "b1")])) signedIn alice
                    [("boardId", JString "b1")] "b1" eq_refl eq_refl eq_refl)).
    exists aliceBoard. split; [apply list_elem_of_here|]. split; reflexivity.
Defined.

(** C3 on a first call of the first user under the tag ["boards"], and on
    a call that finds an entry: the handler is started once, and not at
    all. *)
Lemma cachedDataLayer_miss_and_hit_witness :
  let stored := mkCacheEntry (MOk (JString "kept") ∅) ["boards"] in
  let warm := set_dataCache {[ "u1" := stored ]} signedIn in
  resolverRuns
    (snd (invoke (cachedDataLayer false joinKey "boards") hello JNull signedIn))
  = 1%nat
  ∧
  resolverRuns
    (snd (invoke (cachedDataLayer false joinKey "boards") hello JNull warm))
  = 0%nat
  ∧
  ∃ w', ∀ rest,
    callRecursive (middlewares (cachedDataLayer false joinKey "boards") ++ rest)
      (initialOpts JNull) warm
    = (value stored, w').
Proof.
  intros stored warm. split; [|split].
  - apply (proj2 (proj1 (cachedDataLayer_miss_and_hit false joinKey "boards"
                           (initialOpts JNull) signedIn alice eq_refl) eq_refl)).
    reflexivity.
  - apply (proj2 (proj2 (cachedDataLayer_miss_and_hit false joinKey "boards"
                           (initialOpts JNull) warm alice eq_refl) stored eq_refl)).
  - apply (proj1 (proj2 (cachedDataLayer_miss_and_hit false joinKey "boards"
                           (initialOpts JNull) warm alice eq_refl) stored eq_refl)).
Defined.

(** C4 on a call whose handler fails with [NOT_FOUND]. *)
Lemma cachedDataLayer_failure_is_internal_witness :
  fst (invoke (cachedDataLayer false joinKey "boards") notFound JNull signedIn)
  = inr (ThrowTRPC (newTRPCError INTERNAL_SERVER_ERROR)).
Proof.
  apply (proj1 (proj2 (cachedDataLayer_failure_is_internal false joinKey "boards"
                         (initialOpts JNull) signedIn alice eq_refl eq_refl))
           notFound JNull (ThrowTRPC (newTRPCError NOT_FOUND))).
  reflexivity.
Defined.

(** C5 on a request that reads the context three times inside a render,
    with a pause after the second reading. *)
Lemma createContext_once_per_request_witness :
  let between := [fun w => w; set_clock 5; fun w => w] in
  let '(results, lookups, _) := readContexts between signedIn in
  length results = 3%nat ∧
  (lookups ≤ 1)%nat ∧
  ∀ r, r ∈ results → r = inl {| log := console; user := Some alice |}.
Proof.
  apply (createContext_once_per_request
           [fun w => w; set_clock 5; fun w => w] signedIn eq_refl).
  repeat constructor.
Defined.

(** C7 on a chain built on the cached variant. *)
Lemma nextProc_logs_outcome_witness :
  let p := cachedDataLayer false joinKey "boards" in
  let w1 := delayed false (contextReady signedIn) in
  let o1 := mkCallOpts (baseCtx (initialOpts JNull) signedIn) JNull JNull in
  ∃ tail,
    middlewares p = nextProc_step false :: tail ∧
    logged w1 = logged signedIn ∧
    let (res, w2) := callRecursive (tail ++ [resolverMiddleware hello]) o1 w1 in
    callRecursive (middlewares p ++ [resolverMiddleware hello]) (initialOpts JNull) signedIn
    = (res,
       set_logged
         (logged w2 ++
            [match res with
             | MOk data _ => LogInfo (clock w2 - clock w1) data
             | MErr error => LogError (clock w2 - clock w1) error
             end]) w2).
Proof.
  apply (nextProc_logs_outcome false joinKey "boards"
           (cachedDataLayer false joinKey "boards") [resolverMiddleware hello]
           (initialOpts JNull) signedIn).
  unfold variants. repeat constructor.
Defined.

(** C8 in development mode, with the draw 0.5. *)
Lemma nextProc_delay_in_dev_witness :
  let w1 := delayed true (contextReady signedIn) in
  ∃ ms, timers w1 = (timers signedIn ++ [ms])%list ∧ 100 ≤ ms ≤ 499.
Proof.
  apply (proj2 (proj2 (proj2 (nextProc_delay_in_dev true (initialOpts JNull) signedIn)))
           eq_refl).
  reflexivity.
Defined.

(** C9 on two calls of the first user under the tag ["boards"]: the
    second, with another input and another handler, returns what the first
    one computed. *)
Lemma cachedDataLayer_ignores_input_witness :
  let chain resolver raw w :=
    callRecursive
      (middlewares (cachedDataLayer false joinKey "boards") ++ [resolverMiddleware resolver])
      (initialOpts raw) w in
  let first := chain hello (JObject [("page", JNumber 1)]) signedIn in
  ∃ c,
    fst first = MOk (JString "hello") c ∧
    fst (chain notFound (JObject [("page", JNumber 2)]) (beginRequest (snd first)))
    = MOk (JString "hello") c.
Proof.
  intros chain first. eexists. split; [reflexivity|].
  apply (cachedDataLayer_ignores_input false joinKey "boards"
           (initialOpts (JObject [("page", JNumber 1)])) [resolverMiddleware hello]
           signedIn alice _ _ (snd first)
           (initialOpts (JObject [("page", JNumber 2)])) [resolverMiddleware notFound]
           (beginRequest (snd first)) alice);
    reflexivity.
Defined.

(** C10, amended, on a request during which the session stays the same. *)
Lemma protectedAction_resolves_again_witness :
  let injected : Ctx := {[ "log" := VLog console; "user" := VUser alice ]} in
  injected !! "user" = Some (sessionValue (sessions signedIn 1%nat))
  ∧
  ∃ stored,
    fst (callRecursive [nextProc_step false; answer JNull] (initialOpts JNull) signedIn)
    = MOk JNull stored ∧
    (injected !! "user" = stored !! "user" ↔
     sessions signedIn 1%nat = sessions signedIn 0%nat).
Proof.
  intros injected.
  exact (proj2 (protectedAction_resolves_again false (initialOpts JNull) signedIn
                  JNull injected eq_refl eq_refl)).
Defined.

(** C6, amended, on a request of the first user for her board. *)
Lemma steps_extend_context_witness :
  let raw := JObject [("boardId", JString "b1")] in
  let passed : Ctx :=
    {[ "board" := VBoard aliceBoard; "log" := VLog console; "user" := VUser alice ]} in
  ∃ received board,
    fst (callRecursive
           [nextProc_step false; protectedAction_step;
            inputMiddleware boardIdSchema; answer JNull] (initialOpts raw) signedIn)
    = MOk JNull received ∧
    keepsFields received passed ∧
    received !! "board" = None ∧
    passed = <["board" := VBoard board]> received.
Proof.
  intros raw passed.
  apply (proj2 (proj2 (proj2 (proj2 (proj2
           (steps_extend_context false joinKey "boards" boardIdSchema
              (initialOpts raw) signedIn JNull passed)))))).
  - reflexivity.
  - reflexivity.
Defined.

(** ** Further properties of the procedures

    What the steps do beyond the properties above: the order of the
    guards, what reaches a handler and what comes back from it, how often
    the session is resolved, and what the caching step writes. *)

Lemma spread_empty (c : Ctx) : spread ∅ c = c.
Proof. unfold spread. apply (right_id_L ∅ (∪)). Qed.

Lemma publicAction_middlewares isDev :
  middlewares (publicAction isDev) = [nextProc_step isDev].
Proof. reflexivity. Qed.

Lemma currentContext_fresh w :
  contextMemo w = None →
  currentContext w = {| log := console; user := sessions w (authCalls w) |}.
Proof.
  intros Hmemo. unfold currentContext, freshContext. rewrite Hmemo.
  by destruct (rendering w).
Qed.

Lemma contextReady_fresh w :
  contextMemo w = None → authCalls (contextReady w) = S (authCalls w).
Proof.
  intros Hmemo. unfold contextReady. rewrite Hmemo. by destruct (rendering w).
Qed.

Lemma authenticated_dataCache isDev w :
  dataCache (authenticated isDev w) = dataCache w.
Proof. unfold authenticated; cbn. by rewrite delayed_dataCache, contextReady_dataCache. Qed.

Lemma authenticated_resolverRuns isDev w :
  resolverRuns (authenticated isDev w) = resolverRuns w.
Proof.
  unfold authenticated; cbn. by rewrite delayed_resolverRuns, contextReady_resolverRuns.
Qed.

Lemma authenticated_logged isDev w : logged (authenticated isDev w) = logged w.
Proof. unfold authenticated; cbn. by rewrite delayed_logged, contextReady_logged. Qed.

Lemma authenticated_boards isDev w : boards (authenticated isDev w) = boards w.
Proof. unfold authenticated; cbn. by rewrite delayed_boards, contextReady_boards. Qed.

(** A chain built on [protectedAction], called without a session. *)
Lemma protectedAction_reject isDev rest opts w :
  sessionAtAuthStep w = None →
  callRecursive (nextProc_step isDev :: protectedAction_step :: rest) opts w =
    finish (clock (authenticated isDev w)) (MErr (newTRPCError UNAUTHORIZED))
      (authenticated isDev w).
Proof.
  unfold sessionAtAuthStep. intros Hsession.
  rewrite nextProc_chain. cbn zeta.
  rewrite protectedAction_chain.
  rewrite delayed_sessions, delayed_authCalls, contextReady_sessions, Hsession.
  reflexivity.
Qed.

(** The schema of the board variant accepts exactly the inputs with a
    string [boardId], and keeps nothing else of them. *)
Lemma boardIdSchema_accepts raw parsed :
  boardIdSchema raw = Some parsed ↔
  ∃ boardId, hasBoardId raw boardId ∧ parsed = JObject [("boardId", JString boardId)].
Proof.
  unfold boardIdSchema, hasBoardId. split.
  - destruct raw as [| | |fields]; try discriminate.
    destruct (assoc "boardId" fields) as [[| |s|]|] eqn:Hid; try discriminate.
    intros [= <-]. exists s. split; [by exists fields|reflexivity].
  - intros (boardId & (fields & -> & Hid) & ->). by rewrite Hid.
Qed.

Lemma boardIdSchema_rejects raw :
  boardIdSchema raw = None ↔ ¬ ∃ boardId, hasBoardId raw boardId.
Proof.
  split.
  - intros Hnone (boardId & fields & -> & Hid).
    unfold boardIdSchema in Hnone. rewrite Hid in Hnone. discriminate Hnone.
  - intros Hno. destruct (boardIdSchema raw) as [parsed|] eqn:Hparsed; [|reflexivity].
    apply boardIdSchema_accepts in Hparsed as (boardId & Hhas & _).
    destruct Hno. by exists boardId.
Qed.

(** X1. The public variant has no guard.  At the start of a request, in a
    call that starts from an empty context, the handler runs in the
    context [{ log, user }], where [user] is the session or [null] when
    nobody is signed in, and with the input and the raw input of the call.
    The result of the chain is the handler's: a success with the data it
    returned, or a failure with the error it threw, a [TRPCError] as it
    is and any other error wrapped in an [INTERNAL_SERVER_ERROR] that
    takes over its message and names it as cause.  (The result is that of
    tRPC's chain of steps; the caller adapter comes after it.) *)
Theorem publicAction_runs_handler isDev resolver opts w :
  contextMemo w = None →
  ctx opts = ∅ →
  let c : Ctx :=
    {[ "log" := VLog console; "user" := sessionValue (sessions w (authCalls w)) ]} in
  let w1 := delayed isDev (contextReady w) in
  fst (callRecursive (middlewares (publicAction isDev) ++ [resolverMiddleware resolver])
         opts w)
  = match fst (resolver (mkCallOpts c (input opts) (rawInput opts))
                 (set_resolverRuns (S (resolverRuns w1)) w1)) with
    | inl data => MOk data c
    | inr (ThrowTRPC e) => MErr e
    | inr (ThrowError msg) =>
        MErr {| code := INTERNAL_SERVER_ERROR; message := msg; cause := Some msg |}
    end.
Proof.
  intros Hmemo Hctx c w1.
  rewrite publicAction_middlewares. cbn [app].
  rewrite nextProc_chain. cbn zeta.
  rewrite resolverMiddleware_chain. cbn [ctx input rawInput].
  rewrite Hctx, spread_empty, (currentContext_fresh w Hmemo).
  unfold contextFields; cbn [log user]. fold c. fold w1.
  destruct (resolver _ _) as [[data|[e|msg]] w2]; reflexivity.
Qed.

(** X2. In the authenticated variant a [TRPCError] thrown by the handler
    becomes the error of the failed result of the chain as it is, code,
    message and cause, and it is the error of the record the base step
    logs last.  (The result is that of tRPC's chain of steps; the caller
    adapter comes after it.) *)
Theorem protectedAction_keeps_handler_error isDev resolver opts w u e :
  sessionAtAuthStep w = Some u →
  (∀ o w0, fst (resolver o w0) = inr (ThrowTRPC e)) →
  let outcome :=
    callRecursive (middlewares (protectedAction isDev) ++ [resolverMiddleware resolver])
      opts w in
  fst outcome = MErr e ∧
  ∃ duration earlier, logged (snd outcome) = (earlier ++ [LogError duration e])%list.
Proof.
  intros Hsession Hthrows outcome. unfold outcome.
  rewrite protectedAction_middlewares. cbn [app].
  rewrite (protectedAction_run _ _ _ _ u Hsession). cbn zeta.
  rewrite resolverMiddleware_chain.
  match goal with |- context [resolver ?o ?w0] =>
    pose proof (Hthrows o w0) as Hr; destruct (resolver o w0) as [[data|cause] w2]
  end; cbn in Hr; [discriminate Hr|].
  injection Hr as ->. cbn.
  split; [reflexivity|]. by eexists _, _.
Qed.

(** What the parser and the board step of the board variant do with the
    rest of a chain, once the context holds a user: one of three things. *)
Lemma board_tail_cases rest o w u :
  ctx o !! "user" = Some (VUser u) →
  let tail := inputMiddleware boardIdSchema :: protectedBoardAction_step :: rest in
  (boardIdSchema (rawInput o) = None ∧
   callRecursive tail o w = (MErr (newTRPCError BAD_REQUEST), w))
  ∨
  (∃ boardId,
     hasBoardId (rawInput o) boardId ∧
     List.find (where_ (User.id u) boardId) (boards w) = None ∧
     callRecursive tail o w = (MErr (newTRPCError FORBIDDEN), w))
  ∨
  (∃ boardId board,
     hasBoardId (rawInput o) boardId ∧
     List.find (where_ (User.id u) boardId) (boards w) = Some board ∧
     callRecursive tail o w =
       callRecursive rest
         (mkCallOpts (<["board" := VBoard board]> (ctx o))
                     (combineInput (input o) (JObject [("boardId", JString boardId)]))
                     (rawInput o)) w).
Proof.
  intros Huser tail. unfold tail. rewrite inputMiddleware_chain.
  destruct (boardIdSchema (rawInput o)) as [parsed|] eqn:Hparsed; [|by left].
  right.
  apply boardIdSchema_accepts in Hparsed as (boardId & Hhas & ->).
  destruct (combineInput_boardId (input o) boardId) as (fields' & Hcombine & Hid').
  rewrite Hcombine.
  erewrite protectedBoardAction_chain; [|exact Huser|reflexivity|exact Hid'].
  cbn [ctx input rawInput].
  destruct (List.find _ (boards w)) as [board|] eqn:Hfind.
  - right. exists boardId, board. split; [exact Hhas|]. split; [exact Hfind|].
    unfold spread. by rewrite <- insert_union_singleton_l, Hcombine.
  - left. exists boardId. split; [exact Hhas|]. split; [exact Hfind|reflexivity].
Qed.

(** A chain built on [cachedDataLayer], called with a session [u]. *)
Lemma cachedDataLayer_run isDev cacheKey cacheTag rest opts w u :
  sessionAtAuthStep w = Some u →
  callRecursive (middlewares (cachedDataLayer isDev cacheKey cacheTag) ++ rest) opts w =
    let w1 := authenticated isDev w in
    let key := cacheKey [User.id u] [cacheTag] in
    match dataCache w !! key with
    | Some entry => finish (clock w1) (value entry) w1
    | None =>
        let (res, w2) :=
          callRecursive rest
            (mkCallOpts (<["user" := VUser u]> (baseCtx opts w))
                        (input opts) (rawInput opts)) w1 in
        match res with
        | MOk _ _ =>
            finish (clock w1) res
              (set_dataCache (<[key := mkCacheEntry res [cacheTag]]> (dataCache w2)) w2)
        | MErr _ =>
            finish (clock w1) (MErr (newTRPCError INTERNAL_SERVER_ERROR)) w2
        end
    end.
Proof.
  intros Hsession.
  rewrite cachedDataLayer_middlewares. cbn [app].
  rewrite (protectedAction_run _ _ _ _ u Hsession). cbn zeta.
  rewrite (cachedDataLayer_chain _ _ _ _ _ u) by (cbn [ctx]; apply lookup_insert_eq).
  rewrite authenticated_dataCache.
  destruct (dataCache w !! _) as [entry|]; [reflexivity|].
  destruct (callRecursive rest _ _) as [[data c|e] w2]; reflexivity.
Qed.

(** X3. In the board variant a signed-in call whose input has no string
    [boardId] fails with an error whose code is [BAD_REQUEST], the same
    one whatever the table holds and whatever follows: nothing after the
    parser runs, no handler is started, and the base step logs the error,
    as the one new record of the call. *)
Theorem protectedBoardAction_rejects_bad_input isDev opts w u :
  sessionAtAuthStep w = Some u →
  (¬ ∃ boardId, hasBoardId (rawInput opts) boardId) →
  ∃ e w',
    code e = BAD_REQUEST ∧
    resolverRuns w' = resolverRuns w ∧
    (∃ duration, logged w' = (logged w ++ [LogError duration e])%list) ∧
    ∀ rest,
      callRecursive (middlewares (protectedBoardAction isDev) ++ rest) opts w
      = (MErr e, w').
Proof.
  intros Hsession Hbad.
  apply boardIdSchema_rejects in Hbad.
  exists (newTRPCError BAD_REQUEST),
         (snd (finish (clock (authenticated isDev w))
                 (MErr (newTRPCError BAD_REQUEST)) (authenticated isDev w))).
  split; [reflexivity|].
  split; [cbn; apply authenticated_resolverRuns|].
  split; [unfold finish; cbn [snd logged set_logged]; rewrite authenticated_logged;
          by eexists|].
  intros rest. rewrite protectedBoardAction_middlewares. cbn [app].
  rewrite (protectedAction_run _ _ _ _ u Hsession). cbn zeta.
  rewrite inputMiddleware_chain. cbn [rawInput]. rewrite Hbad. reflexivity.
Qed.

(** X4. Authentication comes first in the three variants built on
    [protectedAction]: when nobody is signed in, a call fails with
    [UNAUTHORIZED] whatever its input, whatever the table and the cache
    hold (also when the cache has an entry) and whatever follows; the cache
    is left as it was and no handler is started. *)
Theorem signed_out_is_unauthorized isDev cacheKey cacheTag p w :
  p ∈ [protectedAction isDev; protectedBoardAction isDev;
       cachedDataLayer isDev cacheKey cacheTag] →
  sessionAtAuthStep w = None →
  ∃ w',
    dataCache w' = dataCache w ∧
    resolverRuns w' = resolverRuns w ∧
    ∀ opts rest,
      callRecursive (middlewares p ++ rest) opts w
      = (MErr (newTRPCError UNAUTHORIZED), w').
Proof.
  intros Hp Hsession.
  exists (snd (finish (clock (authenticated isDev w))
                 (MErr (newTRPCError UNAUTHORIZED)) (authenticated isDev w))).
  split; [cbn; apply authenticated_dataCache|].
  split; [cbn; apply authenticated_resolverRuns|].
  intros opts rest.
  assert (Htail : ∃ tail,
    middlewares p = nextProc_step isDev :: protectedAction_step :: tail).
  { repeat (apply elem_of_cons in Hp as [->|Hp]); [..|inversion Hp];
      eexists; reflexivity. }
  destruct Htail as [tail ->]. cbn [app].
  by rewrite (protectedAction_reject _ _ _ _ Hsession).
Qed.

Lemma authenticated_authCalls isDev w :
  contextMemo w = None → authCalls (authenticated isDev w) = S (S (authCalls w)).
Proof.
  intros Hmemo. unfold authenticated; cbn. by rewrite (contextReady_fresh w Hmemo).
Qed.

(** Read a field of the world the base step leaves when it has logged an
    outcome. *)
Ltac finished :=
  unfold finish;
  cbn [fst snd set_logged set_dataCache
       authCalls dataCache resolverRuns logged timers clock boards contextMemo
       rendering].

(** X5. How often a call resolves the session, when nothing after the steps
    of this file does: once in the public variant (by [createContext]),
    twice in the authenticated, the board and the cached variant (the
    authentication step asks again), whether the call is let through,
    rejected, or served from the cache. *)
Theorem session_lookups_per_call isDev cacheKey cacheTag rest opts w :
  contextMemo w = None →
  leavesAlone authCalls rest →
  let lookups p :=
    (authCalls (snd (callRecursive (middlewares p ++ rest) opts w)) - authCalls w)%nat in
  lookups (publicAction isDev) = 1%nat ∧
  lookups (protectedAction isDev) = 2%nat ∧
  lookups (protectedBoardAction isDev) = 2%nat ∧
  lookups (cachedDataLayer isDev cacheKey cacheTag) = 2%nat.
Proof.
  intros Hmemo Hframe lookups. unfold lookups.
  pose proof (authenticated_authCalls isDev w Hmemo) as Hauth.
  split; [|split; [|split]].
  - rewrite publicAction_middlewares. cbn [app].
    rewrite nextProc_chain. cbn zeta.
    match goal with |- context [callRecursive rest ?o ?w1] =>
      pose proof (Hframe o w1) as Hf; destruct (callRecursive rest o w1) as [res w2]
    end.
    cbn [snd] in Hf. finished.
    rewrite Hf, delayed_authCalls, (contextReady_fresh w Hmemo). lia.
  - rewrite protectedAction_middlewares. cbn [app].
    destruct (sessionAtAuthStep w) as [u|] eqn:Hsession.
    + rewrite (protectedAction_run _ _ _ _ u Hsession). cbn zeta.
      match goal with |- context [callRecursive rest ?o ?w1] =>
        pose proof (Hframe o w1) as Hf; destruct (callRecursive rest o w1) as [res w2]
      end.
      cbn [snd] in Hf. finished. rewrite Hf, Hauth. lia.
    + rewrite (protectedAction_reject _ _ _ _ Hsession). finished. rewrite Hauth. lia.
  - rewrite protectedBoardAction_middlewares. cbn [app].
    destruct (sessionAtAuthStep w) as [u|] eqn:Hsession.
    + rewrite (protectedAction_run _ _ _ _ u Hsession). cbn zeta.
      match goal with |- context [callRecursive _ ?o ?w1] =>
        destruct (board_tail_cases rest o w1 u) as
          [[_ ->]|[(b & _ & _ & ->)|(b & board & _ & _ & ->)]];
          [cbn [ctx]; apply lookup_insert_eq|..]
      end.
      * finished. rewrite Hauth. lia.
      * finished. rewrite Hauth. lia.
      * match goal with |- context [callRecursive rest ?o ?w1] =>
          pose proof (Hframe o w1) as Hf; destruct (callRecursive rest o w1) as [res w2]
        end.
        cbn [snd] in Hf. finished. rewrite Hf, Hauth. lia.
    + rewrite (protectedAction_reject _ _ _ _ Hsession). finished. rewrite Hauth. lia.
  - destruct (sessionAtAuthStep w) as [u|] eqn:Hsession.
    + rewrite (cachedDataLayer_run _ _ _ _ _ _ u Hsession). cbn zeta.
      destruct (dataCache w !! _) as [entry|].
      * finished. rewrite Hauth. lia.
      * match goal with |- context [callRecursive rest ?o ?w1] =>
          pose proof (Hframe o w1) as Hf; destruct (callRecursive rest o w1) as [res w2]
        end.
        cbn [snd] in Hf. destruct res; finished; rewrite Hf, Hauth; lia.
    + rewrite cachedDataLayer_middlewares. cbn [app].
      rewrite (protectedAction_reject _ _ _ _ Hsession). finished. rewrite Hauth. lia.
Qed.

(** X6. A failed result is not cached: when the cache holds nothing for the
    user and what follows the caching step fails, the chain leaves the
    cache exactly as what followed left it; if that did not write the
    user's entry, the next call finds the cache empty there again. *)
Theorem cachedDataLayer_failure_not_stored isDev cacheKey cacheTag rest opts w u e w2 :
  sessionAtAuthStep w = Some u →
  let key := cacheKey [User.id u] [cacheTag] in
  dataCache w !! key = None →
  callRecursive rest
    (mkCallOpts (<["user" := VUser u]> (baseCtx opts w)) (input opts) (rawInput opts))
    (authenticated isDev w)
  = (MErr e, w2) →
  let after :=
    snd (callRecursive (middlewares (cachedDataLayer isDev cacheKey cacheTag) ++ rest)
           opts w) in
  dataCache after = dataCache w2 ∧
  (dataCache w2 !! key = None → dataCache after !! key = None).
Proof.
  intros Hsession key Hmiss Hfail after. unfold after.
  rewrite (cachedDataLayer_run _ _ _ _ _ _ u Hsession). cbn zeta.
  fold key. rewrite Hmiss, Hfail. finished. split; [reflexivity|auto].
Qed.

(** X7. The caching step writes one entry at most: when it stores a
    result, every entry under another key is as what followed the step
    left it; when it serves a stored entry, the whole cache is as it
    was. *)
Theorem cachedDataLayer_writes_own_entry isDev cacheKey cacheTag rest opts w u :
  sessionAtAuthStep w = Some u →
  let key := cacheKey [User.id u] [cacheTag] in
  let after :=
    snd (callRecursive (middlewares (cachedDataLayer isDev cacheKey cacheTag) ++ rest)
           opts w) in
  (∀ data c w2,
     dataCache w !! key = None →
     callRecursive rest
       (mkCallOpts (<["user" := VUser u]> (baseCtx opts w)) (input opts) (rawInput opts))
       (authenticated isDev w)
     = (MOk data c, w2) →
     dataCache after !! key = Some (mkCacheEntry (MOk data c) [cacheTag]) ∧
     ∀ k, k ≠ key → dataCache after !! k = dataCache w2 !! k)
  ∧
  (is_Some (dataCache w !! key) → dataCache after = dataCache w).
Proof.
  intros Hsession key after. unfold after.
  rewrite (cachedDataLayer_run _ _ _ _ _ _ u Hsession). cbn zeta. fold key.
  split.
  - intros data c w2 Hmiss Hok. rewrite Hmiss, Hok. finished. split.
    + apply lookup_insert_eq.
    + intros k Hk. by rewrite lookup_insert_ne.
  - intros [entry Hhit]. rewrite Hhit. finished. apply authenticated_dataCache.
Qed.

(** X8. Users do not see each other's entries: a call by user [u] leaves
    the entry of another key as it was, so when the cache held nothing for
    user [u'] before, a later call by [u'] is not served from the cache but
    from what follows the caching step in that call. *)
Theorem cachedDataLayer_isolates_users isDev cacheKey cacheTag
    rest1 opts1 w u u' res wA :
  let chain rest opts w :=
    callRecursive (middlewares (cachedDataLayer isDev cacheKey cacheTag) ++ rest) opts w in
  let key := cacheKey [User.id u] [cacheTag] in
  let key' := cacheKey [User.id u'] [cacheTag] in
  sessionAtAuthStep w = Some u →
  key' ≠ key →
  leavesAlone dataCache rest1 →
  dataCache w !! key' = None →
  chain rest1 opts1 w = (res, wA) →
  dataCache wA !! key' = None ∧
  ∀ rest2 opts2 w',
    sessionAtAuthStep w' = Some u' →
    dataCache w' !! key' = dataCache wA !! key' →
    fst (chain rest2 opts2 w')
    = match fst (callRecursive rest2
                   (mkCallOpts (<["user" := VUser u']> (baseCtx opts2 w'))
                               (input opts2) (rawInput opts2))
                   (authenticated isDev w')) with
      | MOk data c => MOk data c
      | MErr _ => MErr (newTRPCError INTERNAL_SERVER_ERROR)
      end.
Proof.
  intros chain key key' Hsession Hne Hframe Hnone Hfirst.
  assert (Hafter : dataCache wA !! key' = None).
  { unfold chain in Hfirst.
    rewrite (cachedDataLayer_run _ _ _ _ _ _ u Hsession) in Hfirst.
    cbn zeta in Hfirst. fold key in Hfirst.
    destruct (dataCache w !! key) as [entry|].
    - injection Hfirst as _ <-. finished. by rewrite authenticated_dataCache.
    - match type of Hfirst with context [callRecursive rest1 ?o ?w1] =>
        pose proof (Hframe o w1) as Hf; destruct (callRecursive rest1 o w1) as [res1 w2]
      end.
      cbn [snd] in Hf. rewrite authenticated_dataCache in Hf.
      destruct res1; injection Hfirst as _ <-; finished.
      + rewrite lookup_insert_ne by (intros Heq; by apply Hne). by rewrite Hf.
      + by rewrite Hf. }
  split; [exact Hafter|].
  intros rest2 opts2 w' Hsession' Hkept. unfold chain.
  rewrite (cachedDataLayer_run _ _ _ _ _ _ u' Hsession'). cbn zeta. fold key'.
  rewrite Hkept, Hafter.
  destruct (callRecursive rest2 _ _) as [[data c|e] w2]; reflexivity.
Qed.

(** X9. The duration the base step logs is the time of what follows it
    alone: the artificial delay of development mode comes before the
    measurement starts, so a chain that takes [d] milliseconds is logged
    with [d] with and without the delay. *)
Theorem logged_duration_excludes_delay isDev d rest opts w :
  takes d rest →
  let (res, after) := callRecursive (nextProc_step isDev :: rest) opts w in
  ∃ earlier, logged after = (earlier ++ [outcomeRecord d res])%list.
Proof.
  intros Htakes. rewrite nextProc_chain. cbn zeta.
  match goal with |- context [callRecursive rest ?o ?w1] =>
    pose proof (Htakes o w1) as Hd; destruct (callRecursive rest o w1) as [res w2]
  end.
  cbn [snd] in Hd. exists (logged w2). cbn.
  replace (clock w2 - clock (delayed isDev (contextReady w))) with d by lia.
  reflexivity.
Qed.

Lemma hasBoardId_unique raw b b' : hasBoardId raw b → hasBoardId raw b' → b = b'.
Proof.
  intros (fields & -> & Hb) (fields' & [= <-] & Hb'). congruence.
Qed.

Lemma find_no_match {A} (f : A → bool) (l : list A) :
  (∀ x, x ∈ l → f x = false) → List.find f l = None.
Proof.
  intros Hno. destruct (List.find f l) as [x|] eqn:Hfind; [|reflexivity].
  apply find_some in Hfind as [Hin Hfx]. apply list_elem_of_In in Hin.
  rewrite (Hno x Hin) in Hfx. discriminate Hfx.
Qed.

(** X10. A rejection by one of the two guards of the board variant is
    logged: the call leaves exactly one new record on the console, at
    error level, with the error of the guard: [UNAUTHORIZED] without a
    session, [FORBIDDEN] when the user owns no board with the identifier
    of the input. *)
Theorem protectedBoardAction_rejections_logged isDev rest opts w :
  let after :=
    snd (callRecursive (middlewares (protectedBoardAction isDev) ++ rest) opts w) in
  let rejected c :=
    ∃ duration, logged after = (logged w ++ [LogError duration (newTRPCError c)])%list in
  (sessionAtAuthStep w = None → rejected UNAUTHORIZED)
  ∧
  (∀ u boardId,
     sessionAtAuthStep w = Some u →
     hasBoardId (rawInput opts) boardId →
     (∀ board, board ∈ boards w →
               ¬ (Board.ownerId board = User.id u ∧ Board.id board = boardId)) →
     rejected FORBIDDEN).
Proof.
  intros after rejected. unfold rejected, after.
  rewrite protectedBoardAction_middlewares. cbn [app].
  split.
  - intros Hsession. rewrite (protectedAction_reject _ _ _ _ Hsession).
    finished. rewrite authenticated_logged. by eexists.
  - intros u boardId Hsession Hhas Hnone.
    rewrite (protectedAction_run _ _ _ _ u Hsession). cbn zeta.
    match goal with |- context [callRecursive _ ?o ?w1] =>
      destruct (board_tail_cases rest o w1 u) as
        [[Hbad _]|[(b & _ & _ & ->)|(b & board & Hhas' & Hfind & _)]];
        [cbn [ctx]; apply lookup_insert_eq|..]
    end.
    + cbn [rawInput] in Hbad. apply boardIdSchema_rejects in Hbad.
      destruct Hbad. by exists boardId.
    + finished. rewrite authenticated_logged. by eexists.
    + cbn [rawInput] in Hhas'.
      rewrite (hasBoardId_unique _ _ _ Hhas' Hhas), authenticated_boards in Hfind.
      rewrite find_no_match in Hfind; [discriminate Hfind|].
      intros x Hx. specialize (Hnone x Hx).
      destruct (where_ (User.id u) boardId x) eqn:Hw; [|reflexivity].
      apply where_spec in Hw. contradiction.
Qed.

(** X11. Only the cached variant touches the data cache: in the public,
    the authenticated and the board variant, when what follows leaves the
    cache alone, so does the whole call, whether it is let through or
    rejected. *)
Theorem other_variants_leave_cache isDev p rest opts w :
  p ∈ [publicAction isDev; protectedAction isDev; protectedBoardAction isDev] →
  leavesAlone dataCache rest →
  dataCache (snd (callRecursive (middlewares p ++ rest) opts w)) = dataCache w.
Proof.
  intros Hp Hframe.
  repeat (apply elem_of_cons in Hp as [->|Hp]); [..|inversion Hp].
  - rewrite publicAction_middlewares. cbn [app].
    rewrite nextProc_chain. cbn zeta.
    match goal with |- context [callRecursive rest ?o ?w1] =>
      pose proof (Hframe o w1) as Hf; destruct (callRecursive rest o w1) as [res w2]
    end.
    cbn [snd] in Hf. finished.
    by rewrite Hf, delayed_dataCache, contextReady_dataCache.
  - rewrite protectedAction_middlewares. cbn [app].
    destruct (sessionAtAuthStep w) as [u|] eqn:Hsession.
    + rewrite (protectedAction_run _ _ _ _ u Hsession). cbn zeta.
      match goal with |- context [callRecursive rest ?o ?w1] =>
        pose proof (Hframe o w1) as Hf; destruct (callRecursive rest o w1) as [res w2]
      end.
      cbn [snd] in Hf. finished. by rewrite Hf, authenticated_dataCache.
    + rewrite (protectedAction_reject _ _ _ _ Hsession). finished.
      apply authenticated_dataCache.
  - rewrite protectedBoardAction_middlewares. cbn [app].
    destruct (sessionAtAuthStep w) as [u|] eqn:Hsession.
    + rewrite (protectedAction_run _ _ _ _ u Hsession). cbn zeta.
      match goal with |- context [callRecursive _ ?o ?w1] =>
        destruct (board_tail_cases rest o w1 u) as
          [[_ ->]|[(b & _ & _ & ->)|(b & board & _ & _ & ->)]];
          [cbn [ctx]; apply lookup_insert_eq|..]
      end.
      * finished. apply authenticated_dataCache.
      * finished. apply authenticated_dataCache.
      * match goal with |- context [callRecursive rest ?o ?w1] =>
          pose proof (Hframe o w1) as Hf; destruct (callRecursive rest o w1) as [res w2]
        end.
        cbn [snd] in Hf. finished. by rewrite Hf, authenticated_dataCache.
    + rewrite (protectedAction_reject _ _ _ _ Hsession). finished.
      apply authenticated_dataCache.
Qed.

Lemma board_handler_ctx (u : User.t) (session : option User.t) (board : Board.t) :
  <["board" := VBoard board]>
    (<["user" := VUser u]>
       (spread ∅ (contextFields {| log := console; user := session |})))
  = ({[ "board" := VBoard board; "log" := VLog console; "user" := VUser u ]} : Ctx).
Proof.
  rewrite spread_empty. unfold contextFields; cbn [log user].
  apply map_eq. intros k.
  destruct (decide (k = "board")) as [->|Hboard]; [by rewrite !lookup_insert_eq|].
  rewrite !(lookup_insert_ne _ "board") by done.
  destruct (decide (k = "user")) as [->|Huser].
  - rewrite lookup_insert_eq, lookup_insert_ne by done. by rewrite lookup_singleton_eq.
  - rewrite (lookup_insert_ne _ "user") by done.
    destruct (decide (k = "log")) as [->|Hlog]; [by rewrite !lookup_insert_eq|].
    rewrite !(lookup_insert_ne _ "log") by done.
    by rewrite !lookup_singleton_ne.
Qed.

(** X12. What the handler of a board procedure is given, in a request of
    user [u] for a board of hers that starts from an empty context: the
    context [{ log, user, board }] with the session as [user] and the
    first row of the table that matches as [board], and as input an
    object whose [boardId] is the one of the raw input; when no input was
    there before the parser ran, the input is the object [{ boardId }]
    without any other key of the raw input.  The result of the chain is
    the handler's: a success with the data it returned, or a failure with
    the error it threw, wrapped unless it is a [TRPCError].  (The result
    is that of tRPC's chain of steps; the caller adapter comes after
    it.) *)
Theorem protectedBoardAction_handler_sees isDev resolver opts w u boardId board :
  contextMemo w = None →
  ctx opts = ∅ →
  sessionAtAuthStep w = Some u →
  hasBoardId (rawInput opts) boardId →
  List.find (where_ (User.id u) boardId) (boards w) = Some board →
  let c : Ctx :=
    {[ "board" := VBoard board; "log" := VLog console; "user" := VUser u ]} in
  let w1 := authenticated isDev w in
  ∃ fields,
    assoc "boardId" fields = Some (JString boardId) ∧
    (input opts = JNull → fields = [("boardId", JString boardId)]) ∧
    fst (callRecursive
           (middlewares (protectedBoardAction isDev) ++ [resolverMiddleware resolver])
           opts w)
    = match fst (resolver (mkCallOpts c (JObject fields) (rawInput opts))
                   (set_resolverRuns (S (resolverRuns w1)) w1)) with
      | inl data => MOk data c
      | inr (ThrowTRPC e) => MErr e
      | inr (ThrowError msg) =>
          MErr {| code := INTERNAL_SERVER_ERROR; message := msg; cause := Some msg |}
      end.
Proof.
  intros Hmemo Hctx Hsession Hhas Hfind c w1.
  destruct (combineInput_boardId (input opts) boardId) as (fields & Hcombine & Hid).
  exists fields. split; [exact Hid|]. split.
  { intros Hinput. rewrite Hinput in Hcombine. cbn in Hcombine. congruence. }
  rewrite protectedBoardAction_middlewares. cbn [app].
  rewrite (protectedAction_run _ _ _ _ u Hsession). cbn zeta.
  match goal with |- context [callRecursive _ ?o ?w0] =>
    destruct (board_tail_cases [resolverMiddleware resolver] o w0 u) as
      [[Hbad _]|[(b & Hhas' & Hnone & _)|(b & found & Hhas' & Hfound & ->)]];
      [cbn [ctx]; apply lookup_insert_eq|..]
  end.
  - cbn [rawInput] in Hbad. apply boardIdSchema_rejects in Hbad.
    destruct Hbad. by exists boardId.
  - cbn [rawInput] in Hhas'.
    rewrite (hasBoardId_unique _ _ _ Hhas' Hhas), authenticated_boards, Hfind in Hnone.
    discriminate Hnone.
  - cbn [rawInput] in Hhas'.
    rewrite (hasBoardId_unique _ _ _ Hhas' Hhas), authenticated_boards, Hfind in Hfound.
    injection Hfound as <-.
    rewrite (hasBoardId_unique _ _ _ Hhas' Hhas).
    rewrite resolverMiddleware_chain.
    cbn [ctx input rawInput]. rewrite Hcombine.
    unfold baseCtx. rewrite Hctx.
    rewrite (currentContext_fresh w Hmemo), board_handler_ctx.
    fold c. fold w1.
    destruct (resolver _ _) as [[data|[e|msg]] w2]; reflexivity.
Qed.

Lemma delayed_contextMemo isDev w : contextMemo (delayed isDev w) = contextMemo w.
Proof. by destruct isDev. Qed.

Lemma delayed_rendering isDev w : rendering (delayed isDev w) = rendering w.
Proof. by destruct isDev. Qed.

Lemma contextReady_rendering w : rendering (contextReady w) = rendering w.
Proof.
  unfold contextReady.
  destruct (rendering w) eqn:Hrender; [destruct (contextMemo w)|]; by cbn.
Qed.

Lemma contextReady_contextMemo w :
  contextMemo (contextReady w)
  = if rendering w then Some (currentContext w) else contextMemo w.
Proof.
  unfold contextReady, currentContext.
  destruct (rendering w); [|reflexivity].
  destruct (contextMemo w) eqn:Hmemo; [exact Hmemo|reflexivity].
Qed.

(** X13. What is kept of the context after a chain built on the base step,
    when what followed left the memo table alone and neither entered nor
    left a render.  Inside a render the context outlives the call: the
    table holds the context the base step used, and the next call of
    [createContext] returns it without changing the world, so without
    resolving the session again.  Outside a render nothing is kept: the
    table is as it was, and the next call of [createContext] resolves the
    session again. *)
Theorem context_kept_for_the_request isDev rest opts w :
  leavesAlone contextMemo rest →
  leavesAlone rendering rest →
  let after := snd (callRecursive (nextProc_step isDev :: rest) opts w) in
  if rendering w then
    contextMemo after = Some (currentContext w) ∧
    createContext after = (inl (currentContext w), after)
  else
    contextMemo after = contextMemo w ∧
    createContext after
    = (inl {| log := console; user := sessions after (authCalls after) |},
       set_authCalls (S (authCalls after)) after).
Proof.
  intros Hframe Hscope after.
  assert (Hafter : contextMemo after = contextMemo (contextReady w) ∧
                   rendering after = rendering w).
  { unfold after. rewrite nextProc_chain. cbn zeta.
    match goal with |- context [callRecursive rest ?o ?w1] =>
      pose proof (Hframe o w1) as Hf; pose proof (Hscope o w1) as Hs;
      destruct (callRecursive rest o w1) as [res w2]
    end.
    cbn [snd] in Hf, Hs. finished.
    by rewrite Hf, Hs, delayed_contextMemo, delayed_rendering, contextReady_rendering. }
  destruct Hafter as [Hmemo Hrender].
  rewrite contextReady_contextMemo in Hmemo.
  rewrite createContext_run.
  destruct (rendering w); (split; [exact Hmemo|]).
  - unfold currentContext at 1, contextReady. by rewrite Hrender, Hmemo.
  - unfold currentContext, contextReady, freshContext. by rewrite Hrender.
Qed.

Lemma delayed_timers isDev w :
  timers (delayed isDev w)
  = if isDev then (timers w ++ [waitMs (randoms w (randomCalls w))])%list else timers w.
Proof. by destruct isDev. Qed.

(** X14. The delay of development mode comes before the guards: a call
    that is rejected for want of a session has waited like any other, for
    the delay drawn from [Math.random()] in development mode and not at
    all outside it. *)
Theorem rejected_call_is_delayed isDev cacheKey cacheTag p rest opts w :
  p ∈ [protectedAction isDev; protectedBoardAction isDev;
       cachedDataLayer isDev cacheKey cacheTag] →
  sessionAtAuthStep w = None →
  let (res, after) := callRecursive (middlewares p ++ rest) opts w in
  res = MErr (newTRPCError UNAUTHORIZED) ∧
  timers after
  = if isDev then (timers w ++ [waitMs (randoms w (randomCalls w))])%list
    else timers w.
Proof.
  intros Hp Hsession.
  assert (Htail : ∃ tail,
    middlewares p = nextProc_step isDev :: protectedAction_step :: tail).
  { repeat (apply elem_of_cons in Hp as [->|Hp]); [..|inversion Hp];
      eexists; reflexivity. }
  destruct Htail as [tail ->]. cbn [app].
  rewrite (protectedAction_reject _ _ _ _ Hsession).
  unfold finish. split; [reflexivity|].
  unfold authenticated; cbn [set_logged set_authCalls timers].
  by rewrite delayed_timers, contextReady_timers, contextReady_randoms.
Qed.

(** ** The further properties at concrete requests *)

(** X1 when nobody is signed in. *)
Lemma publicAction_runs_handler_witness :
  fst (callRecursive (middlewares (publicAction true) ++ [resolverMiddleware hello])
         (initialOpts JNull) signedOut)
  = MOk (JString "hello") {[ "log" := VLog console; "user" := VNull ]}.
Proof.
  exact (publicAction_runs_handler true hello (initialOpts JNull) signedOut
           eq_refl eq_refl).
Defined.

(** X2 on a handler that fails with [NOT_FOUND]. *)
Lemma protectedAction_keeps_handler_error_witness :
  let outcome :=
    callRecursive (middlewares (protectedAction false) ++ [resolverMiddleware notFound])
      (initialOpts JNull) signedIn in
  fst outcome = MErr (newTRPCError NOT_FOUND) ∧
  ∃ duration earlier,
    logged (snd outcome) = (earlier ++ [LogError duration (newTRPCError NOT_FOUND)])%list.
Proof.
  exact (protectedAction_keeps_handler_error false notFound (initialOpts JNull)
           signedIn alice (newTRPCError NOT_FOUND) eq_refl (fun _ _ => eq_refl)).
Defined.

(** X3 on an input that names the board under another key. *)
Lemma protectedBoardAction_rejects_bad_input_witness :
  ∃ e w',
    code e = BAD_REQUEST ∧
    resolverRuns w' = resolverRuns signedIn ∧
    (∃ duration, logged w' = (logged signedIn ++ [LogError duration e])%list) ∧
    ∀ rest,
      callRecursive (middlewares (protectedBoardAction false) ++ rest)
        (initialOpts (JObject [("board", JString "b1")])) signedIn
      = (MErr e, w').
Proof.
  apply (protectedBoardAction_rejects_bad_input false
           (initialOpts (JObject [("board", JString "b1")])) signedIn alice eq_refl).
  intros (boardId & fields & Hraw & Hid).
  injection Hraw as <-. discriminate Hid.
Defined.

(** X4 on the cached variant, with an entry of the first user in the
    cache. *)
Lemma signed_out_is_unauthorized_witness :
  let warm :=
    set_dataCache {[ "u1" := mkCacheEntry (MOk (JString "kept") ∅) ["boards"] ]}
      signedOut in
  ∃ w',
    dataCache w' = dataCache warm ∧
    resolverRuns w' = resolverRuns warm ∧
    ∀ opts rest,
      callRecursive (middlewares (cachedDataLayer false joinKey "boards") ++ rest) opts warm
      = (MErr (newTRPCError UNAUTHORIZED), w').
Proof.
  intros warm.
  apply (signed_out_is_unauthorized false joinKey "boards"
           (cachedDataLayer false joinKey "boards") warm).
  - repeat constructor.
  - reflexivity.
Defined.

(** X5 on chains that end in a handler. *)
Lemma session_lookups_per_call_witness :
  let lookups p :=
    (authCalls (snd (callRecursive (middlewares p ++ [resolverMiddleware hello])
                       (initialOpts JNull) signedIn))
     - authCalls signedIn)%nat in
  lookups (publicAction false) = 1%nat ∧
  lookups (protectedAction false) = 2%nat ∧
  lookups (protectedBoardAction false) = 2%nat ∧
  lookups (cachedDataLayer false joinKey "boards") = 2%nat.
Proof.
  apply (session_lookups_per_call false joinKey "boards" [resolverMiddleware hello]
           (initialOpts JNull) signedIn eq_refl).
  intros o w. reflexivity.
Defined.

(** X6 on a handler that fails. *)
Lemma cachedDataLayer_failure_not_stored_witness :
  dataCache
    (snd (callRecursive
            (middlewares (cachedDataLayer false joinKey "boards")
             ++ [resolverMiddleware notFound])
            (initialOpts JNull) signedIn)) !! "u1"
  = None.
Proof.
  apply (proj2 (cachedDataLayer_failure_not_stored false joinKey "boards"
                  [resolverMiddleware notFound] (initialOpts JNull) signedIn alice
                  (newTRPCError NOT_FOUND)
                  (set_resolverRuns 1 (authenticated false signedIn))
                  eq_refl eq_refl eq_refl)).
  reflexivity.
Defined.

(** X7 on a first call of the first user. *)
Lemma cachedDataLayer_writes_own_entry_witness :
  let after :=
    snd (callRecursive
           (middlewares (cachedDataLayer false joinKey "boards")
            ++ [resolverMiddleware hello])
           (initialOpts JNull) signedIn) in
  ∃ c,
    dataCache after !! "u1" = Some (mkCacheEntry (MOk (JString "hello") c) ["boards"]) ∧
    ∀ k, k ≠ "u1" → dataCache after !! k = None.
Proof.
  intros after. eexists.
  apply (proj1 (cachedDataLayer_writes_own_entry false joinKey "boards"
                  [resolverMiddleware hello] (initialOpts JNull) signedIn alice eq_refl)
           (JString "hello") _ (set_resolverRuns 1 (authenticated false signedIn))
           eq_refl eq_refl).
Defined.

(** X8 on a call of the first user and the entry of the second. *)
Lemma cachedDataLayer_isolates_users_witness :
  dataCache
    (snd (callRecursive
            (middlewares (cachedDataLayer false joinKey "boards")
             ++ [resolverMiddleware hello])
            (initialOpts JNull) signedIn)) !! "u2"
  = None.
Proof.
  set (first := callRecursive
                  (middlewares (cachedDataLayer false joinKey "boards")
                   ++ [resolverMiddleware hello])
                  (initialOpts JNull) signedIn).
  apply (proj1 (cachedDataLayer_isolates_users false joinKey "boards"
                  [resolverMiddleware hello] (initialOpts JNull) signedIn alice bob
                  (fst first) (snd first) eq_refl ltac:(discriminate)
                  (fun _ _ => eq_refl) eq_refl eq_refl)).
Defined.

(** X9 in development mode, on a handler that works for 7 milliseconds. *)
Lemma logged_duration_excludes_delay_witness :
  let (res, after) :=
    callRecursive [nextProc_step true; resolverMiddleware (working 7)]
      (initialOpts JNull) signedIn in
  ∃ earlier, logged after = (earlier ++ [outcomeRecord 7 res])%list.
Proof.
  apply (logged_duration_excludes_delay true 7 [resolverMiddleware (working 7)]
           (initialOpts JNull) signedIn).
  intros o w. reflexivity.
Defined.

(** X10 when nobody is signed in. *)
Lemma protectedBoardAction_rejections_logged_witness :
  ∃ duration,
    logged (snd (callRecursive (middlewares (protectedBoardAction false))
                   (initialOpts JNull) signedOut))
    = [LogError duration (newTRPCError UNAUTHORIZED)].
Proof.
  exact (proj1 (protectedBoardAction_rejections_logged false []
                  (initialOpts JNull) signedOut) eq_refl).
Defined.

(** X11 on a board procedure. *)
Lemma other_variants_leave_cache_witness :
  dataCache
    (snd (callRecursive
            (middlewares (protectedBoardAction false) ++ [resolverMiddleware hello])
            (initialOpts (JObject [("boardId", JString "b1")])) signedIn))
  = ∅.
Proof.
  apply (other_variants_leave_cache false (protectedBoardAction false)
           [resolverMiddleware hello]
           (initialOpts (JObject [("boardId", JString "b1")])) signedIn).
  - repeat constructor.
  - intros o w. reflexivity.
Defined.

(** X12 on an input with a key the schema does not know. *)
Lemma protectedBoardAction_handler_sees_witness :
  let raw := JObject [("boardId", JString "b1"); ("page", JNumber 2)] in
  let c : Ctx :=
    {[ "board" := VBoard aliceBoard; "log" := VLog console; "user" := VUser alice ]} in
  let w1 := authenticated false signedIn in
  ∃ fields,
    assoc "boardId" fields = Some (JString "b1") ∧
    (JNull = JNull → fields = [("boardId", JString "b1")]) ∧
    fst (callRecursive
           (middlewares (protectedBoardAction false) ++ [resolverMiddleware hello])
           (initialOpts raw) signedIn)
    = match fst (hello (mkCallOpts c (JObject fields) raw)
                   (set_resolverRuns (S (resolverRuns w1)) w1)) with
      | inl data => MOk data c
      | inr (ThrowTRPC e) => MErr e
      | inr (ThrowError msg) =>
          MErr {| code := INTERNAL_SERVER_ERROR; message := msg; cause := Some msg |}
      end.
Proof.
  intros raw c w1.
  apply (protectedBoardAction_handler_sees false hello (initialOpts raw)
           signedIn alice "b1" aliceBoard eq_refl eq_refl eq_refl).
  - by eexists.
  - reflexivity.
Defined.

(** X13 after a public call inside a render. *)
Lemma context_kept_for_the_request_witness :
  let after :=
    snd (callRecursive [nextProc_step false; resolverMiddleware hello]
           (initialOpts JNull) signedIn) in
  contextMemo after = Some {| log := console; user := Some alice |} ∧
  createContext after = (inl {| log := console; user := Some alice |}, after).
Proof.
  apply (context_kept_for_the_request false [resolverMiddleware hello]
           (initialOpts JNull) signedIn).
  - intros o w. reflexivity.
  - intros o w. reflexivity.
Defined.

(** X14 in development mode, with the draw 0.5. *)
Lemma rejected_call_is_delayed_witness :
  let (res, after) :=
    callRecursive (middlewares (protectedAction true)) (initialOpts JNull) signedOut in
  res = MErr (newTRPCError UNAUTHORIZED) ∧ timers after = [300].
Proof.
  apply (rejected_call_is_delayed true joinKey "boards" (protectedAction true) []
           (initialOpts JNull) signedOut).
  - repeat constructor.
  - reflexivity.
Defined.
